(** * RagRAG: chunking, chunk identity, ingestion and the vector store

    A shallow embedding of [src/ingest.py], [src/store.py], the retry
    loop and topic discovery of [src/semantic_scholar.py], the context and
    prompt builders of [src/retrieve.py] and [src/generate.py], the Reddit
    conversion of [src/community.py] and the interactive loop of
    [src/rag.py], with the properties of the specification stated and
    settled against it, followed by further properties of the code.

    Conventions.
    - A Python [str] is a list of characters; characters are the code
      points U+0000 to U+00FF ([ascii]).  Whitespace is what
      [str.isspace] answers on that range.
    - Python integers are [Z]; [len] results are injected with [Z.of_nat].
    - A dictionary with string keys is a [gmap]; the persistent collection
      behind [ChromaStore] is a [gmap] from ids to stored entries.
    - Exceptions are values of a sum type; [print] lines are collected in
      a log. *)

From Stdlib Require Import ZArith QArith Ascii String List Lia Bool.
From Stdlib Require Import DecimalString.
From Stdlib Require DecimalZ.
From stdpp Require Import gmap strings list fin_maps.
Import ListNotations.

Local Open Scope Z_scope.
Local Open Scope list_scope.

(** ** Python strings *)

Module PyStr.

Abbreviation str := (list ascii).

(** A string literal as a Python [str]. *)
Definition py (s : string) : str := list_ascii_of_string s.

Definition nl : ascii := ascii_of_nat 10.
Definition space : ascii := ascii_of_nat 32.
Definition dot : ascii := ascii_of_nat 46.

(** [str.isspace] for one character: TAB..CR, FS..US, SPACE, NEL, NBSP. *)
Definition isspace (c : ascii) : bool :=
  let n := nat_of_ascii c in
  ((9 <=? n) && (n <=? 13) || (28 <=? n) && (n <=? 32)
   || (n =? 133) || (n =? 160))%nat.

(** [s.lstrip()], [s.rstrip()], [s.strip()]. *)
Fixpoint lstrip (s : str) : str :=
  match s with
  | [] => []
  | c :: s' => if isspace c then lstrip s' else s
  end.

Definition rstrip (s : str) : str := rev (lstrip (rev s)).

Definition strip (s : str) : str := rstrip (lstrip s).

(** [s.split()]: maximal runs of non-whitespace characters.  [w] is the
    word being read, most recent character first. *)
Fixpoint split_ws_from (w : str) (s : str) : list str :=
  match s with
  | [] => match w with [] => [] | _ => [rev w] end
  | c :: s' =>
      if isspace c
      then match w with
           | [] => split_ws_from [] s'
           | _ => rev w :: split_ws_from [] s'
           end
      else split_ws_from (c :: w) s'
  end.

Definition split_ws (s : str) : list str := split_ws_from [] s.

(** [True] when [p] is a prefix of [s] ([s.startswith(p)]). *)
Fixpoint startswith (p s : str) : bool :=
  match p, s with
  | [], _ => true
  | _ :: _, [] => false
  | a :: p', b :: s' => Ascii.eqb a b && startswith p' s'
  end.

(** [s.split(sep)] for a non-empty separator: the text is cut at the
    occurrences of [sep] found from left to right, without overlap.
    [skip] counts the characters of a separator still to pass over. *)
Fixpoint split_from (sep : str) (skip : nat) (s : str) : list str :=
  match s with
  | [] => [[]]
  | c :: s' =>
      match skip with
      | S k => split_from sep k s'
      | O =>
          if startswith sep s
          then [] :: split_from sep (length sep - 1) s'
          else match split_from sep 0 s' with
               | p :: ps => (c :: p) :: ps
               | [] => [[c]]
               end
      end
  end.

Definition split_on (sep : str) (s : str) : list str := split_from sep 0 s.

(** [sep.join(l)]. *)
Fixpoint join (sep : str) (l : list str) : str :=
  match l with
  | [] => []
  | x :: rest =>
      match rest with
      | [] => x
      | _ :: _ => x ++ sep ++ join sep rest
      end
  end.

(** [l[-n:]] for [n > 0]. *)
Definition last_n {A} (n : nat) (l : list A) : list A :=
  skipn (length l - n) l.

(** [l[:k]] for any integer [k]: a negative [k] counts from the end. *)
Definition slice_to {A} (k : Z) (l : list A) : list A :=
  if 0 <=? k then firstn (Z.to_nat k) l
  else firstn (length l - Z.to_nat (- k)) l.

(** Truth value of a list or string: non-empty. *)
Definition truthy {A} (l : list A) : bool :=
  match l with [] => false | _ :: _ => true end.

(** [len(l)] as a Python integer. *)
Definition len {A} (l : list A) : Z := Z.of_nat (length l).

(** [str(n)] for an integer: decimal digits, with a leading minus sign
    for a negative number. *)
Definition str_of_int (n : Z) : str := py (NilEmpty.string_of_int (Z.to_int n)).

(** [c.lower()] for one character: A..Z and the capital letters of
    Latin-1 (all of U+00C0..U+00DE but the multiplication sign). *)
Definition lower_char (c : ascii) : ascii :=
  let n := nat_of_ascii c in
  if ((65 <=? n) && (n <=? 90)
      || (192 <=? n) && (n <=? 222) && negb (n =? 215))%nat
  then ascii_of_nat (n + 32)
  else c.

Definition lower (s : str) : str := map lower_char s.

(** [s.rfind(c)]: the index of the last occurrence of [c], or [-1]. *)
Fixpoint rfind_from (c : ascii) (s : str) (i found : Z) : Z :=
  match s with
  | [] => found
  | x :: s' => rfind_from c s' (i + 1) (if Ascii.eqb x c then i else found)
  end.

Definition rfind (c : ascii) (s : str) : Z := rfind_from c s 0 (-1).

End PyStr.

Import PyStr.

(** ** Exceptions and results *)

(** The exceptions the modelled code raises or lets through, by who
    raises them.  All of them are subclasses of [Exception]. *)
Inductive exn : Type :=
| ValueError (msg : str)
| IndexError
| HTTPError (msg : str)
| RequestError (msg : str)
| LoaderError (msg : str)
| EmbeddingError (msg : str)
| DecodeError (msg : str).

(** The outcome of a call: a value, or a raised exception. *)
Inductive result (A : Type) : Type :=
| Ok (a : A)
| Raise (e : exn).

Arguments Ok {A} a.
Arguments Raise {A} e.

#[global] Instance result_bind : MBind result := fun A B k r =>
  match r with
  | Ok a => k a
  | Raise e => Raise e
  end.

(** ** [pathlib] on POSIX paths: [name], [suffix] and [stem] *)

Module Pathlib.

(** The parts of a path after its root: the components between slashes,
    without the empty ones and the ["."] ones. *)
Definition parts (path : str) : list str :=
  filter (fun p => truthy p && negb (bool_decide (p = py ".")))
         (split_on (py "/") path).

(** The root of a path: two leading slashes are kept, one or three and
    more are a single slash. *)
Definition root (path : str) : str :=
  if startswith (py "//") path && negb (startswith (py "///") path)
  then py "//"
  else if startswith (py "/") path then py "/" else [].

(** [str(Path(path))]: the normalised spelling of the path. *)
Definition to_str (path : str) : str :=
  let r := root path in
  let body := join (py "/") (parts path) in
  if truthy r || truthy body then r ++ body else py ".".

(** [Path(path).name]: the final component, or the empty string. *)
Definition name (path : str) : str := List.last (parts path) [].

(** [Path(path).suffix]. *)
Definition suffix (path : str) : str :=
  let nm := name path in
  let i := rfind dot nm in
  if (0 <? i) && (i <? len nm - 1) then skipn (Z.to_nat i) nm else [].

(** [Path(path).stem]. *)
Definition stem (path : str) : str :=
  let nm := name path in
  let i := rfind dot nm in
  if (0 <? i) && (i <? len nm - 1) then firstn (Z.to_nat i) nm else nm.

End Pathlib.

(** ** [hashlib.md5] and [str.encode] *)

Module Hashlib.

(** [text.encode()]: UTF-8 of code points below U+0100, one byte below
    U+0080 and two bytes from there on. *)
Definition encode_char (c : ascii) : list Z :=
  let n := Z.of_nat (nat_of_ascii c) in
  if n <? 128 then [n]
  else [Z.lor 192 (Z.shiftr n 6); Z.lor 128 (Z.land n 63)].

Definition encode (text : str) : list Z := flat_map encode_char text.

Definition mask32 : Z := 4294967295.

Definition add32 (a b : Z) : Z := Z.land (a + b) mask32.

Definition not32 (a : Z) : Z := Z.lxor a mask32.

Definition rotl32 (x : Z) (c : Z) : Z :=
  Z.land (Z.lor (Z.shiftl x c) (Z.shiftr x (32 - c))) mask32.

(** The sine table: [floor(2^32 * abs(sin(i + 1)))] for [i] from 0 to 63. *)
Definition K : list Z :=
  [3614090360; 3905402710; 606105819; 3250441966; 4118548399; 1200080426;
   2821735955; 4249261313; 1770035416; 2336552879; 4294925233; 2304563134;
   1804603682; 4254626195; 2792965006; 1236535329; 4129170786; 3225465664;
   643717713; 3921069994; 3593408605; 38016083; 3634488961; 3889429448;
   568446438; 3275163606; 4107603335; 1163531501; 2850285829; 4243563512;
   1735328473; 2368359562; 4294588738; 2272392833; 1839030562; 4259657740;
   2763975236; 1272893353; 4139469664; 3200236656; 681279174; 3936430074;
   3572445317; 76029189; 3654602809; 3873151461; 530742520; 3299628645;
   4096336452; 1126891415; 2878612391; 4237533241; 1700485571; 2399980690;
   4293915773; 2240044497; 1873313359; 4264355552; 2734768916; 1309151649;
   4149444226; 3174756917; 718787259; 3951481745].

(** The per-round rotation amounts. *)
Definition rotations : list Z :=
  [7; 12; 17; 22; 7; 12; 17; 22; 7; 12; 17; 22; 7; 12; 17; 22;
   5; 9; 14; 20; 5; 9; 14; 20; 5; 9; 14; 20; 5; 9; 14; 20;
   4; 11; 16; 23; 4; 11; 16; 23; 4; 11; 16; 23; 4; 11; 16; 23;
   6; 10; 15; 21; 6; 10; 15; 21; 6; 10; 15; 21; 6; 10; 15; 21].

Record state := State { sa : Z; sb : Z; sc : Z; sd : Z }.

Definition init : state :=
  State 1732584193 4023233417 2562383102 271733878.

(** A little-endian 32-bit word from four bytes. *)
Definition word_le (bs : list Z) : Z :=
  match bs with
  | [b0; b1; b2; b3] =>
      Z.lor b0 (Z.lor (Z.shiftl b1 8) (Z.lor (Z.shiftl b2 16) (Z.shiftl b3 24)))
  | _ => 0
  end.

(** The sixteen message words of a 64-byte block. *)
Fixpoint words_le (n : nat) (bs : list Z) : list Z :=
  match n with
  | O => []
  | S n' => word_le (firstn 4 bs) :: words_le n' (skipn 4 bs)
  end.

(** One of the 64 operations on the working state. *)
Definition round (M : list Z) (st : state) (i : nat) : state :=
  let '(State a b c d) := st in
  let iz := Z.of_nat i in
  let '(f, g) :=
    if iz <? 16 then (Z.lor (Z.land b c) (Z.land (not32 b) d), iz)
    else if iz <? 32
    then (Z.lor (Z.land d b) (Z.land (not32 d) c), (5 * iz + 1) mod 16)
    else if iz <? 48 then (Z.lxor b (Z.lxor c d), (3 * iz + 5) mod 16)
    else (Z.lxor c (Z.lor b (not32 d)), (7 * iz) mod 16) in
  let f' := add32 (add32 (add32 f a) (nth i K 0)) (nth (Z.to_nat g) M 0) in
  State d (add32 b (rotl32 f' (nth i rotations 0))) b c.

Definition compress (st : state) (block : list Z) : state :=
  let M := words_le 16 block in
  let '(State a b c d) := fold_left (round M) (seq 0 64) st in
  State (add32 (sa st) a) (add32 (sb st) b) (add32 (sc st) c) (add32 (sd st) d).

(** The message followed by the byte 0x80, zero bytes up to 56 modulo 64
    and the bit length as eight little-endian bytes. *)
Definition bytes_le (n : nat) (v : Z) : list Z :=
  map (fun k => Z.land (Z.shiftr v (8 * Z.of_nat k)) 255) (seq 0 n).

Definition pad (msg : list Z) : list Z :=
  let l := Z.of_nat (length msg) in
  let zeros := Z.to_nat ((55 - l) mod 64) in
  msg ++ [128] ++ repeat 0 zeros ++ bytes_le 8 ((8 * l) mod 2 ^ 64).

Fixpoint blocks (fuel : nat) (st : state) (bs : list Z) : state :=
  match fuel with
  | O => st
  | S fuel' =>
      match bs with
      | [] => st
      | _ :: _ => blocks fuel' (compress st (firstn 64 bs)) (skipn 64 bs)
      end
  end.

(** [hashlib.md5(msg).digest()]: sixteen bytes. *)
Definition md5 (msg : list Z) : list Z :=
  let p := pad msg in
  let '(State a b c d) := blocks (length p) init p in
  bytes_le 4 a ++ bytes_le 4 b ++ bytes_le 4 c ++ bytes_le 4 d.

Definition hex_digit (n : Z) : ascii :=
  if n <? 10 then ascii_of_nat (Z.to_nat (48 + n))
  else ascii_of_nat (Z.to_nat (87 + n)).

(** [.hexdigest()]: two lowercase hexadecimal digits per byte. *)
Definition hexdigest (digest : list Z) : str :=
  flat_map (fun b => [hex_digit (Z.shiftr b 4); hex_digit (Z.land b 15)])
           digest.

Definition md5_hex (text : str) : str := hexdigest (md5 (encode text)).

End Hashlib.

(** ** [chunk_text] (src/ingest.py) *)

Module Ingest.

Section Chunking.

(** [chunk_size] and the value [overlap_size = int(chunk_size * overlap_ratio)]
    computed once before the loop. *)
Variable chunk_size : Z.
Variable overlap_size : Z.

(** State of the sentence loop: the chunks emitted so far, [sentence_chunk]
    and [sentence_size]. *)
Definition sentence_step (st : list str * list str * Z) (sent0 : str)
  : list str * list str * Z :=
  let '(chunks, sentence_chunk, sentence_size) := st in
  let sent := strip sent0 in
  if negb (truthy sent) then st
  else
    let sent_size := len (split_ws sent) in
    let '(chunks1, sentence_chunk1, sentence_size1) :=
      if (sentence_size + sent_size >? chunk_size) && truthy sentence_chunk
      then
        let overlap_words :=
          slice_to overlap_size (split_ws (List.last sentence_chunk [])) in
        (chunks ++ [join (py ". ") sentence_chunk ++ py "."],
         overlap_words, len overlap_words)
      else (chunks, sentence_chunk, sentence_size) in
    (chunks1, sentence_chunk1 ++ [sent], sentence_size1 + sent_size).

(** The large-paragraph branch after the pending accumulator was flushed:
    split by sentences, run the sentence loop, flush what is left. *)
Definition chunk_sentences (chunks : list str) (para : str) : list str :=
  let sentences := split_on (py ". ") para in
  let '(chunks1, sentence_chunk, _) :=
    fold_left sentence_step sentences (chunks, [], 0) in
  if truthy sentence_chunk
  then chunks1 ++ [join (py ". ") sentence_chunk ++ py "."]
  else chunks1.

(** State of the paragraph loop: [chunks], [current_chunk], [current_size]. *)
Definition paragraph_step (st : list str * list str * Z) (para0 : str)
  : list str * list str * Z :=
  let '(chunks, current_chunk, current_size) := st in
  let para := strip para0 in
  if negb (truthy para) then st
  else
    let para_words := split_ws para in
    let para_size := len para_words in
    if para_size >? chunk_size then
      let '(chunks1, current_chunk1, current_size1) :=
        if truthy current_chunk
        then (chunks ++ [join (py " ") current_chunk], [], 0)
        else (chunks, current_chunk, current_size) in
      (chunk_sentences chunks1 para, current_chunk1, current_size1)
    else
      let '(chunks1, current_chunk1, current_size1) :=
        if (current_size + para_size >? chunk_size) && truthy current_chunk
        then
          let kept :=
            if overlap_size >? 0
            then last_n (Z.to_nat overlap_size) current_chunk
            else [] in
          (chunks ++ [join (py " ") current_chunk], kept, len kept)
        else (chunks, current_chunk, current_size) in
      (chunks1, current_chunk1 ++ [para], current_size1 + para_size).

Definition chunk_text_sized (text : str) : list str :=
  let paragraphs := split_on [nl; nl] text in
  let '(chunks, current_chunk, _) :=
    fold_left paragraph_step paragraphs ([], [], 0) in
  if truthy current_chunk
  then chunks ++ [join (py " ") current_chunk]
  else chunks.

End Chunking.

(** [int(x)] on a rational: truncation toward zero. *)
Definition int_of_Q (q : Q) : Z := Z.quot (Qnum q) (Zpos (Qden q)).

(** [chunk_text(text, chunk_size, overlap_ratio)].  The floating-point
    product [chunk_size * overlap_ratio] is taken exactly, as a rational:
    this is the value of the code where the product of the floats is exact
    or rounds to the same integer part (as for [10 * 0.1], [4 * 0.5] and
    any size times [0.0]), not for every ratio.  What is to hold for every
    ratio is stated for every [overlap_size] of [chunk_text_sized]. *)
Definition chunk_text (text : str) (chunk_size : Z) (overlap_ratio : Q)
  : list str :=
  chunk_text_sized chunk_size
    (int_of_Q (inject_Z chunk_size * overlap_ratio)) text.

(** [generate_chunk_id(source, chunk_index, text)]. *)
Definition generate_chunk_id (source : str) (chunk_index : Z) (text : str)
  : str :=
  let content_hash := firstn 8 (Hashlib.md5_hex text) in
  let source_name := Pathlib.stem source in
  source_name ++ py "_" ++ str_of_int chunk_index ++ py "_" ++ content_hash.

(** A record: the dictionary with the keys ['text'], ['metadata'], ['id']. *)
Record chunk : Type := Chunk {
  text : str;
  metadata : gmap string str;
  id : str
}.

(** A line written by [print] during directory ingestion. *)
Inductive line : Type :=
| Ingested (name : str) (n : Z)
| Failed (name : str) (e : exn).

Section Loading.

(** The format readers [load_pdf], [load_markdown], [load_html] and
    [load_text]: each returns the text of the file or raises. *)
Variable load_pdf load_markdown load_html load_text : str -> result str.

(** [Path(directory).rglob('*')]: every path below the directory. *)
Variable rglob : str -> list str.

(** [load_document(file_path)]: the text and the document type. *)
Definition load_document (file_path : str) : result (str * str) :=
  let suffix := lower (Pathlib.suffix file_path) in
  if bool_decide (suffix = py ".pdf") then
    text ← load_pdf (Pathlib.to_str file_path); Ok (text, py "paper")
  else if bool_decide (suffix ∈ [py ".md"; py ".markdown"]) then
    text ← load_markdown (Pathlib.to_str file_path);
    Ok (text, py "framework")
  else if bool_decide (suffix = py ".html") then
    text ← load_html (Pathlib.to_str file_path); Ok (text, py "framework")
  else if bool_decide (suffix = py ".txt") then
    text ← load_text (Pathlib.to_str file_path); Ok (text, py "guide")
  else Raise (ValueError (py "Unsupported file format: " ++ suffix)).

(** The loop [for idx, chunk in enumerate(chunks)] of [ingest_document],
    from index [idx] on. *)
Fixpoint ingest_records (source doc_type : str) (idx : Z) (chunks : list str)
  : list chunk :=
  match chunks with
  | [] => []
  | chunk :: rest =>
      let chunk_id := generate_chunk_id source idx chunk in
      let metadata :=
        <["source" := source]>
          (<["doc_type" := doc_type]>
             (<["chunk_index" := str_of_int idx]>
                (<["chunk_id" := chunk_id]> ∅))) in
      Chunk chunk metadata chunk_id
        :: ingest_records source doc_type (idx + 1) rest
  end.

(** [ingest_document(file_path, chunk_size, overlap_ratio)]. *)
Definition ingest_document (file_path : str) (chunk_size : Z)
  (overlap_ratio : Q) : result (list chunk) :=
  '(text, doc_type) ← load_document file_path;
  let source := Pathlib.name file_path in
  let chunks := chunk_text text chunk_size overlap_ratio in
  Ok (ingest_records source doc_type 0 chunks).

Definition default_extensions : list str :=
  [py ".pdf"; py ".md"; py ".markdown"; py ".html"; py ".txt"].

(** One turn of the loop of [ingest_directory] on [all_chunks] and the
    lines printed so far. *)
Definition ingest_file (chunk_size : Z) (overlap_ratio : Q)
  (extensions : list str) (st : list chunk * list line) (file_path : str)
  : list chunk * list line :=
  let '(all_chunks, out) := st in
  if bool_decide (lower (Pathlib.suffix file_path) ∈ extensions) then
    match ingest_document (Pathlib.to_str file_path) chunk_size overlap_ratio
    with
    | Ok chunks =>
        (all_chunks ++ chunks,
         out ++ [Ingested (Pathlib.name file_path) (len chunks)])
    | Raise e => (all_chunks, out ++ [Failed (Pathlib.name file_path) e])
    end
  else st.

(** [ingest_directory(directory, chunk_size, overlap_ratio, extensions)]:
    the returned list and the lines printed. *)
Definition ingest_directory (directory : str) (chunk_size : Z)
  (overlap_ratio : Q) (extensions : option (list str))
  : list chunk * list line :=
  let extensions :=
    match extensions with
    | None => default_extensions
    | Some l => l
    end in
  fold_left (ingest_file chunk_size overlap_ratio extensions)
            (rglob directory) ([], []).

End Loading.

End Ingest.

(** ** [ChromaStore] (src/store.py) *)

Module Store.

Import Ingest.

Section Store.

(** An embedding vector, as the embedding model returns it. *)
Variable vec : Type.

(** What the collection stores under an id. *)
Record entry : Type := Entry {
  document : str;
  embedding : vec;
  entry_metadata : gmap string str
}.

(** [embed(texts)] of src/embed.py: one vector per text, or an exception
    of the embedding model. *)
Variable embed : list str -> result (list vec).

(** The answer of a nearest-neighbour query and [collection.query] itself,
    the search of the index library. *)
Variable query_result : Type.
Variable collection_query :
  gmap str entry -> list vec -> Z -> result query_result.

(** A call made to a collaborator. *)
Inductive call : Type :=
| CallEmbed (texts : list str)
| CallQuery (n_results : Z).

(** Modelled from the spec: [collection.upsert] of the index library, which
    is not part of the repository.  It writes one (id, text, embedding,
    metadata) tuple per position; an id that exists is overwritten in
    place.  The four lists must have one length. *)
Fixpoint collection_write (c : gmap str entry) (ids documents : list str)
  (embeddings : list vec) (metadatas : list (gmap string str))
  : gmap str entry :=
  match ids, documents, embeddings, metadatas with
  | i :: ids', d :: documents', e :: embeddings', m :: metadatas' =>
      collection_write (<[i := Entry d e m]> c)
        ids' documents' embeddings' metadatas'
  | _, _, _, _ => c
  end.

Definition collection_upsert (c : gmap str entry) (ids documents : list str)
  (embeddings : list vec) (metadatas : list (gmap string str))
  : result (gmap str entry) :=
  if bool_decide (length ids = length documents
                  ∧ length ids = length embeddings
                  ∧ length ids = length metadatas)
  then Ok (collection_write c ids documents embeddings metadatas)
  else Raise (ValueError (py "Unequal lengths")).

(** Modelled from the spec: [collection.get(where={"source": {"$eq":
    source}}, include=[])['ids']] of the index library: the ids of the
    stored records whose metadata has that value under ["source"]. *)
Definition collection_get_ids (c : gmap str entry) (source : str)
  : list str :=
  (map_to_list
     (filter (λ kv, entry_metadata kv.2 !! "source" = Some source) c)).*1.

(** Modelled from the spec: [collection.delete(ids=ids)] of the index
    library. *)
Definition collection_delete (c : gmap str entry) (ids : list str)
  : gmap str entry :=
  fold_left (λ m i, delete i m) ids c.

(** Modelled from the spec: [collection.count()] of the index library. *)
Definition collection_count (c : gmap str entry) : Z := Z.of_nat (size c).

(** [ChromaStore.upsert_chunks(chunks)]: the collection afterwards. *)
Definition upsert_chunks (c : gmap str entry) (chunks : list chunk)
  : result (gmap str entry) :=
  if negb (truthy chunks) then Ok c
  else
    let texts := map text chunks in
    embeddings ← embed texts;
    let ids := map id chunks in
    let metadatas := map metadata chunks in
    let documents := texts in
    collection_upsert c ids documents embeddings metadatas.

(** [ChromaStore.query(query_text, top_k)]: the calls made to the
    collaborators, in order, and the outcome. *)
Definition query (c : gmap str entry) (query_text : str) (top_k : Z)
  : list call * result query_result :=
  match embed [query_text] with
  | Raise e => ([CallEmbed [query_text]], Raise e)
  | Ok [] => ([CallEmbed [query_text]], Raise IndexError)
  | Ok (query_embedding :: _) =>
      ([CallEmbed [query_text]; CallQuery top_k],
       collection_query c [query_embedding] top_k)
  end.

(** [ChromaStore.get_collection_stats()]['total_documents']. *)
Definition total_documents (c : gmap str entry) : Z := collection_count c.

(** [ChromaStore.delete_by_source(source)]: the collection afterwards. *)
Definition delete_by_source (c : gmap str entry) (source : str)
  : gmap str entry :=
  let ids := collection_get_ids c source in
  if truthy ids then collection_delete c ids else c.

End Store.

Arguments Entry {vec} document embedding entry_metadata.
Arguments document {vec} e.
Arguments embedding {vec} e.
Arguments entry_metadata {vec} e.
Arguments collection_get_ids {vec} c source.
Arguments collection_delete {vec} c ids.
Arguments collection_count {vec} c.
Arguments total_documents {vec} c.
Arguments delete_by_source {vec} c source.
Arguments upsert_chunks {vec} embed c chunks.
Arguments query {vec} embed {query_result} collection_query c query_text top_k.

(** Modelled from the spec: [collection.query] of the index library, which
    is not part of the repository, rejects a count [n_results] that is not
    positive before it searches.  This is the spec's [InvalidArgument]; the
    library raises it as a [ValueError].  [search] is the nearest-neighbour
    search for the counts it accepts. *)
Definition invalid_n_results : exn :=
  ValueError (py "Number of requested results cannot be negative, or zero").

Definition checked_query {vec query_result : Type}
  (search : gmap str (entry vec) -> list vec -> Z -> result query_result)
  (c : gmap str (entry vec)) (query_embeddings : list vec) (n_results : Z)
  : result query_result :=
  if n_results <=? 0 then Raise invalid_n_results
  else search c query_embeddings n_results.

End Store.

(** ** The retry loop and topic discovery (src/semantic_scholar.py) *)

Module Scholar.

Import Ingest.

Definition MAX_RETRIES : Z := 3.

(** [RETRY_DELAY = 2.0] seconds; durations are in milliseconds. *)
Definition RETRY_DELAY : Z := 2000.

Record response : Type := Response { status_code : Z; body : str }.

(** What one [requests.get] does: it answers, or the transport raises. *)
Inductive attempt_outcome : Type :=
| Answers (r : response)
| Breaks (msg : str).

(** The process as the loop sees it: the number of requests sent and the
    durations passed to [time.sleep], oldest first. *)
Record process : Type := Process { sent : nat; sleeps : list Z }.

Definition sleep (d : Z) (p : process) : process :=
  Process (sent p) (sleeps p ++ [d]).

Section Requests.

(** The upstream service: the outcome of the n-th request of the run. *)
Variable upstream : nat -> attempt_outcome.

Definition requests_get (p : process) : attempt_outcome * process :=
  (upstream (sent p), Process (S (sent p)) (sleeps p)).

(** [response.raise_for_status()]. *)
Definition raise_for_status (r : response) : result unit :=
  if (400 <=? status_code r) && (status_code r <? 600)
  then Raise (HTTPError (str_of_int (status_code r)))
  else Ok tt.

(** The loop [for attempt in range(max_retries)] from [attempt] on, with
    [n] turns left; [last_error] as the handler leaves it. *)
Fixpoint retry_loop (n : nat) (attempt : Z) (last_error : option exn)
  (p : process) : result response * process :=
  match n with
  | O =>
      (Raise (default (HTTPError (py "Max retries exceeded")) last_error), p)
  | S n' =>
      match requests_get p with
      | (Breaks msg, p1) => (Raise (RequestError msg), p1)
      | (Answers r, p1) =>
          if status_code r =? 429 then
            let wait_time := RETRY_DELAY * (attempt + 1) in
            retry_loop n' (attempt + 1) last_error (sleep wait_time p1)
          else
            match raise_for_status r with
            | Ok _ => (Ok r, p1)
            | Raise e =>
                if negb (status_code r =? 429) then (Raise e, p1)
                else retry_loop n' (attempt + 1) (Some e) p1
            end
      end
  end.

(** [_request_with_retry(url, params, max_retries)]. *)
Definition _request_with_retry (max_retries : Z) (p : process)
  : result response * process :=
  retry_loop (Z.to_nat max_retries) 0 None p.

(** [response.json()], the citation filter and [paper_to_chunk] for the
    papers of an answer. *)
Variable chunks_of_response : response -> result (list chunk).

(** [search_and_ingest(query, limit, min_citations)]. *)
Definition search_and_ingest (p : process)
  : result (list chunk) * process :=
  match _request_with_retry MAX_RETRIES p with
  | (Ok r, p1) => (chunks_of_response r, p1)
  | (Raise e, p1) => (Raise e, p1)
  end.

(** The inner loop of [discover_rag_papers]: keep the chunks whose id was
    not seen. *)
Definition keep_unseen (st : gset str * list chunk) (c : chunk)
  : gset str * list chunk :=
  let '(seen_ids, all_chunks) := st in
  if bool_decide (id c ∈ seen_ids) then st
  else ({[id c]} ∪ seen_ids, all_chunks ++ [c]).

(** One topic of [discover_rag_papers]: the [try] block and its handler.
    The printed errors are collected. *)
Definition discover_topic
  (st : gset str * list chunk * list exn * process) (topic : str)
  : gset str * list chunk * list exn * process :=
  let '(seen_ids, all_chunks, errors, p) := st in
  match search_and_ingest p with
  | (Ok chunks, p1) =>
      let '(seen1, all1) := fold_left keep_unseen chunks (seen_ids, all_chunks) in
      (seen1, all1, errors, sleep 500 p1)
  | (Raise e, p1) => (seen_ids, all_chunks, errors ++ [e], p1)
  end.

Definition RAG_TOPICS : list str :=
  [py "retrieval augmented generation"; py "dense passage retrieval";
   py "vector database embedding"; py "chunking strategies NLP";
   py "RAG evaluation metrics"; py "hybrid search retrieval";
   py "reranking cross encoder"].

(** [discover_rag_papers()]: the chunks returned, the errors printed and
    the process afterwards. *)
Definition discover_rag_papers (p : process)
  : list chunk * list exn * process :=
  let '(_, all_chunks, errors, p1) :=
    fold_left discover_topic RAG_TOPICS (∅, [], [], p) in
  (all_chunks, errors, p1).

End Requests.

End Scholar.

(** ** Retrieval and the prompt (src/retrieve.py, src/generate.py) *)

Module Retrieve.

Section Retrieve.

(** A distance score of the index library. *)
Variable dist : Type.

(** The dictionary [collection.query] answers with: under each key one
    list per query embedding.  A missing or [None] entry is the empty
    list. *)
Record query_answer : Type := QueryAnswer {
  answer_documents : list (list str);
  answer_metadatas : list (list (gmap string str));
  answer_distances : list (list dist)
}.

(** The dataclass [RetrievalResult]. *)
Record RetrievalResult : Type := Result {
  documents : list str;
  metadatas : list (gmap string str);
  distances : list dist
}.

(** [x[0] if x else []]. *)
Definition first_or_empty {A} (x : list (list A)) : list A :=
  match x with
  | [] => []
  | first :: _ => first
  end.

Variable vec : Type.
Variable embed : list str -> result (list vec).
Variable collection_query :
  gmap str (Store.entry vec) -> list vec -> Z -> result query_answer.

(** [retrieve(query, top_k)] on the store [c]. *)
Definition retrieve (c : gmap str (Store.entry vec)) (query : str)
  (top_k : Z) : result RetrievalResult :=
  results ← (Store.query embed collection_query c query top_k).2;
  Ok (Result (first_or_empty (answer_documents results))
             (first_or_empty (answer_metadatas results))
             (first_or_empty (answer_distances results))).

(** The loop of [format_context] over [zip(documents, metadatas)],
    numbered from [i]. *)
Fixpoint format_blocks (include_sources : bool) (i : Z)
  (docs : list str) (metas : list (gmap string str)) : list str :=
  match docs, metas with
  | doc :: docs', meta :: metas' =>
      (if include_sources
       then py "[" ++ str_of_int i ++ py "] (Source: "
            ++ default (py "unknown") (meta !! "source") ++ py ")"
            ++ [nl] ++ doc
       else doc)
        :: format_blocks include_sources (i + 1) docs' metas'
  | _, _ => []
  end.

(** [format_context(results, include_sources)]. *)
Definition format_context (results : RetrievalResult)
  (include_sources : bool) : str :=
  if negb (truthy (documents results)) then []
  else
    join ([nl; nl] ++ py "---" ++ [nl; nl])
      (format_blocks include_sources 1 (documents results)
         (metadatas results)).

(** [retrieve_and_format(query, top_k)]. *)
Definition retrieve_and_format (c : gmap str (Store.entry vec))
  (query : str) (top_k : Z) : result (str * RetrievalResult) :=
  results ← retrieve c query top_k;
  Ok (format_context results true, results).

End Retrieve.

Arguments QueryAnswer {dist} _ _ _.
Arguments answer_documents {dist} _.
Arguments answer_metadatas {dist} _.
Arguments answer_distances {dist} _.
Arguments Result {dist} _ _ _.
Arguments documents {dist} _.
Arguments metadatas {dist} _.
Arguments distances {dist} _.
Arguments format_context {dist} results include_sources.
Arguments retrieve {dist vec} embed collection_query c query top_k.
Arguments retrieve_and_format {dist vec} embed collection_query c query top_k.

End Retrieve.

Module Generate.

(** The prompt of [build_prompt] for an empty context. *)
Definition no_context_prompt (query : str) : str :=
  py "Question: " ++ query ++ [nl; nl]
  ++ py "Note: No relevant context was found in the knowledge base. Please answer based on general knowledge, but indicate that this is not from the RAG corpus.".

(** [build_prompt(query, context)]. *)
Definition build_prompt (query context : str) : str :=
  if negb (truthy context) then no_context_prompt query
  else
    py "Context from knowledge base:" ++ [nl] ++ context ++ [nl; nl]
    ++ py "---" ++ [nl; nl] ++ py "Question: " ++ query ++ [nl; nl]
    ++ py "Please answer based on the context above. Cite sources using [1], [2], etc. when referencing specific information.".

End Generate.

(** ** Reddit posts as records (src/community.py) *)

Module Community.

(** The separator of [url.split('/')]. *)
Definition slash : ascii := ascii_of_nat 47.

(** [sub in s] for strings. *)
Fixpoint contains (sub s : str) : bool :=
  startswith sub s
  || match s with
     | [] => false
     | _ :: s' => contains sub s'
     end.

(** [l[-n]] for [n > 0]: [IndexError] when the list is shorter. *)
Definition index_from_end {A} (n : nat) (l : list A) : result A :=
  if (length l <? n)%nat then Raise IndexError
  else match nth_error l (length l - n) with
       | Some x => Ok x
       | None => Raise IndexError
       end.

(** The dictionary of a post as [fetch_reddit_posts] builds it: strings
    under ['title'], ['body'], ['url'] and ['subreddit'], integers under
    ['score'] and ['num_comments'].  A missing key is [None]. *)
Record reddit_post : Type := RedditPost {
  title : option str;
  body : option str;
  score : option Z;
  url : option str;
  subreddit : option str;
  num_comments : option Z
}.

(** [reddit_post_to_chunk(post)]. *)
Definition reddit_post_to_chunk (post : reddit_post) : result Ingest.chunk :=
  let title := default (py "Untitled") (title post) in
  let body := default [] (body post) in
  let parts :=
    [py "Reddit Discussion: " ++ title;
     py "Subreddit: r/" ++ default (py "unknown") (subreddit post)
     ++ py " | " ++ str_of_int (default 0 (score post)) ++ py " upvotes | "
     ++ str_of_int (default 0 (num_comments post)) ++ py " comments";
     [];
     if truthy body then body else py "(Link post - no text content)"] in
  let text := join [nl] parts in
  let metadata : gmap string str :=
    <["source" := default [] (url post)]>
      (<["doc_type" := py "community_reddit"]>
         (<["title" := title]>
            (<["subreddit" := default [] (subreddit post)]>
               (<["score" := str_of_int (default 0 (score post))]> ∅)))) in
  let url := default [] (url post) in
  post_id ←
    (if contains (py "/comments/") url
     then index_from_end 3 (split_on (py "/") url)
     else Ok (last_n 20 url));
  Ok (Ingest.Chunk text metadata (py "reddit_" ++ post_id)).

End Community.

(** ** The interactive loop (src/rag.py) *)

Module Rag.

(** What one call of [input] gives: a line (without its newline), an
    interrupt from the keyboard, or the end of the input. *)
Inductive event : Type :=
| Line (s : str)
| Interrupt
| Eof.

(** How a call of [ask] ends: with an answer, with an exception that is
    an [Exception], with a [KeyboardInterrupt], or with another exception
    that is no [Exception] (such as [SystemExit]). *)
Inductive ending : Type :=
| Answers (answer : str)
| Fails (e : exn)
| Interrupted
| Escapes (exception : str).

(** What a run has done so far: the texts written ([print] arguments and
    [input] prompts, in order), the questions passed to [ask], whether the
    loop was left, and the exception that left [main], if one did. *)
Record run : Type := Run {
  printed : list str;
  asked : list str;
  finished : bool;
  raised : option str
}.

Definition continue_with (out questions : list str) (r : run) : run :=
  Run (out ++ printed r) (questions ++ asked r) (finished r) (raised r).

Section Main.

(** [ask(question, verbose=True)]: the lines it prints and how it ends. *)
Variable ask : str -> list str * ending.

(** [str(e)] for a caught exception. *)
Variable describe : exn -> str.

Definition ask_prompt : str := [nl] ++ py "Ask: ".

Definition quit_words : list str := [py "quit"; py "exit"; py "q"].

(** The [while True] loop of [main], run on the inputs that arrive; with
    no input left it waits in [input].  The handlers cover the whole body
    of the [try]: a [KeyboardInterrupt] ends the loop whether it arrives in
    [input] or in [ask], an [Exception] of [ask] is printed and the loop
    goes on, any other exception leaves [main]. *)
Fixpoint main_loop (inputs : list event) : run :=
  match inputs with
  | [] => Run [ask_prompt] [] false None
  | Interrupt :: _ =>
      Run [ask_prompt; [nl; nl] ++ py "Interrupted. Goodbye!"] [] true None
  | Eof :: rest =>
      continue_with
        [ask_prompt; [nl] ++ py "Error: " ++ py "EOF when reading a line"]
        [] (main_loop rest)
  | Line s :: rest =>
      let question := strip s in
      if negb (truthy question) then
        continue_with [ask_prompt] [] (main_loop rest)
      else if bool_decide (lower question ∈ quit_words) then
        Run [ask_prompt; [nl] ++ py "Goodbye!"] [] true None
      else
        let '(lines, outcome) := ask question in
        let out := [ask_prompt; [nl] ++ py "Thinking..."] ++ lines in
        match outcome with
        | Answers answer =>
            continue_with
              (out ++ [[nl] ++ py "Answer:" ++ [nl] ++ answer])
              [question] (main_loop rest)
        | Fails e =>
            continue_with
              (out ++ [[nl] ++ py "Error: " ++ describe e])
              [question] (main_loop rest)
        | Interrupted =>
            Run (out ++ [[nl; nl] ++ py "Interrupted. Goodbye!"])
                [question] true None
        | Escapes exception => Run out [question] true (Some exception)
        end
  end.

(** [main()]. *)
Definition main (inputs : list event) : run :=
  continue_with
    [repeat (ascii_of_nat 61) 50;
     py "  RagRAG - Ask questions about building RAGs";
     repeat (ascii_of_nat 61) 50;
     [nl] ++ py "Type 'quit' or 'exit' to leave." ++ [nl]]
    [] (main_loop inputs).

End Main.

End Rag.

(** ** Notions used in the statements *)

Module Notions.

Import Ingest.


(** A string without a character that is not whitespace. *)
Definition blank (s : str) : bool := forallb isspace s.

(** A state of the paragraph loop in which something was emitted or is
    waiting in the accumulator. *)
Definition pending (st : list str * list str * Z) : Prop :=
  st.1.1 <> [] \/ st.1.2 <> [].



(** The number of words two consecutive chunks share: the largest [k], at
    most [bound], for which the last [k] words of the first are the first
    [k] words of the second. *)
Fixpoint longest_overlap (bound : nat) (x y : list str) : nat :=
  match bound with
  | O => O
  | S bound' =>
      if bool_decide (last_n bound x = firstn bound y) then bound
      else longest_overlap bound' x y
  end.

Definition shared_words (a b : str) : nat :=
  let x := split_ws a in
  let y := split_ws b in
  longest_overlap (Nat.min (length x) (length y)) x y.

(** The sum of the chunk counts printed on the success lines. *)
Fixpoint ingested_total (out : list line) : Z :=
  match out with
  | [] => 0
  | Ingested _ n :: out' => n + ingested_total out'
  | Failed _ _ :: out' => ingested_total out'
  end.

(** The extension table of [load_document]: lowercased suffix, document
    type. *)
Definition doc_type_table : list (str * str) :=
  [(py ".pdf", py "paper"); (py ".md", py "framework");
   (py ".markdown", py "framework"); (py ".html", py "framework");
   (py ".txt", py "guide")].

(** The paragraphs [chunk_text] works on: the pieces between blank-line
    boundaries, stripped, without the empty ones. *)
Definition paragraphs_of (text : str) : list str :=
  List.filter truthy (map strip (split_on [nl; nl] text)).

(** The paragraph loop has lost none of the short paragraphs [done]: each
    one that is not blank and has at most [chunk_size] words is an element
    of the group of an emitted chunk or of the accumulator. *)
Definition paragraphs_kept (chunk_size : Z) (done : list str)
  (st : list str * list str * Z) : Prop :=
  forall p, In p done -> strip p <> [] ->
    len (split_ws (strip p)) <= chunk_size ->
    (exists b a, In (join (py " ") (b ++ strip p :: a)) st.1.1)
    \/ (exists b a, st.1.2 = b ++ strip p :: a).

(** [len(s.split())] and its sum over a list of strings. *)
Definition word_count (s : str) : Z := len (split_ws s).

Fixpoint word_total (l : list str) : Z :=
  match l with
  | [] => 0
  | p :: l' => word_count p + word_total l'
  end.

(** A printed line that reports a failure. *)
Definition is_failure (l : line) : bool :=
  match l with
  | Failed _ _ => true
  | Ingested _ _ => false
  end.

(** Durations in geometric progression: each one is to the next as the
    one before was to it. *)
Definition geometric (l : list Z) : Prop :=
  forall (i : nat) (a b c : Z),
    l !! i = Some a -> l !! S i = Some b -> l !! S (S i) = Some c ->
    b * b = a * c.

(** Durations in arithmetic progression with the given step. *)
Definition arithmetic (step : Z) (l : list Z) : Prop :=
  forall (i : nat) (a b : Z),
    l !! i = Some a -> l !! S i = Some b -> b - a = step.

(** The delays of [n] throttled turns of the retry loop, the first one
    numbered [attempt]. *)
Definition waits (attempt : Z) (n : nat) : list Z :=
  map (fun k => Scholar.RETRY_DELAY * (attempt + 1 + Z.of_nat k)) (seq 0 n).

Section Delivered.

Variable load_pdf load_markdown load_html load_text : str -> result str.

(** What a listed path contributes to the result of a directory run: the
    records of its document when its extension is accepted and the
    ingestion returns, nothing otherwise. *)
Definition delivered (chunk_size : Z) (overlap_ratio : Q)
  (extensions : list str) (file_path : str) : list chunk :=
  if bool_decide (lower (Pathlib.suffix file_path) ∈ extensions) then
    match ingest_document load_pdf load_markdown load_html load_text
            (Pathlib.to_str file_path) chunk_size overlap_ratio with
    | Ok chunks => chunks
    | Raise _ => []
    end
  else [].

(** The failure lines a listed path gives rise to. *)
Definition reported (chunk_size : Z) (overlap_ratio : Q)
  (extensions : list str) (file_path : str) : list line :=
  if bool_decide (lower (Pathlib.suffix file_path) ∈ extensions) then
    match ingest_document load_pdf load_markdown load_html load_text
            (Pathlib.to_str file_path) chunk_size overlap_ratio with
    | Ok _ => []
    | Raise e => [Failed (Pathlib.name file_path) e]
    end
  else [].

End Delivered.



(** An input that makes the loop of [main] leave: an interrupt, or a line
    that reads [quit], [exit] or [q] in any case, spaces around it apart. *)
Definition stops (ev : Rag.event) : bool :=
  match ev with
  | Rag.Interrupt => true
  | Rag.Eof => false
  | Rag.Line s => bool_decide (lower (strip s) ∈ Rag.quit_words)
  end.

(** The question a line asks, if any: its text without the spaces around
    it, unless nothing is left. *)
Definition question_of (ev : Rag.event) : option str :=
  match ev with
  | Rag.Line s => if truthy (strip s) then Some (strip s) else None
  | _ => None
  end.

(** A call of [ask] that ends the loop of [main]. *)
Definition leaves_main (outcome : Rag.ending) : bool :=
  match outcome with
  | Rag.Interrupted | Rag.Escapes _ => true
  | Rag.Answers _ | Rag.Fails _ => false
  end.

(** An input that ends the loop of [main] with the assistant [ask]: one
    that stops it, or a question during which [ask] is interrupted or
    raises what is no [Exception]. *)
Definition ends_loop (ask : str -> list str * Rag.ending) (ev : Rag.event)
  : bool :=
  stops ev
  || match question_of ev with
     | Some question => leaves_main (ask question).2
     | None => false
     end.

End Notions.

Import Notions.

(** ** Concrete collaborators for the examples *)

Module Scenario.

(** A directory of three files whose PDF cannot be read. *)
Definition broken_pdf (path : str) : result str :=
  Raise (LoaderError (py "EOF marker not found")).
Definition plain_reader (path : str) : result str :=
  Ok (py "alpha beta" ++ [nl; nl] ++ py "gamma").
Definition three_files (directory : str) : list str :=
  [py "docs/a.txt"; py "docs/b.pdf"; py "docs/c.md"].

(** An embedding model that answers with one number per text, and one
    that is not available. *)
Definition length_embed (texts : list str) : result (list Z) :=
  Ok (map len texts).
Definition embed_down (texts : list str) : result (list Z) :=
  Raise (EmbeddingError (py "model not loaded")).

(** A search that answers with the first [n] ids of the collection, and
    the collection query over it. *)
Definition first_ids (c : gmap str (Store.entry Z)) (qs : list Z) (n : Z)
  : result (list str) :=
  Ok (firstn (Z.to_nat n) (map fst (map_to_list c))).
Definition strict_query
  : gmap str (Store.entry Z) -> list Z -> Z -> result (list str) :=
  Store.checked_query first_ids.

(** Five records of [paper.pdf] and three of [other.pdf]. *)
Definition paper_records : list Ingest.chunk :=
  Ingest.ingest_records (py "paper.pdf") (py "paper") 0
    [py "one"; py "two"; py "three"; py "four"; py "five"].
Definition other_records : list Ingest.chunk :=
  Ingest.ingest_records (py "other.pdf") (py "paper") 0
    [py "six"; py "seven"; py "eight"].

(** The store after both lists were written. *)
Definition eight_records : gmap str (Store.entry Z) :=
  match Store.upsert_chunks length_embed ∅ (paper_records ++ other_records)
  with
  | Ok c => c
  | Raise _ => ∅
  end.

(** One paragraph of four sentences, the first of six words. *)
Definition four_sentences : str :=
  py "One two three four five six. Seven eight. Nine ten eleven twelve thirteen. x".

(** Two paragraphs of six words each. *)
Definition two_paragraphs : str :=
  py "a b c d e f" ++ [nl; nl] ++ py "g h i j k l".

(** An upstream service that answers every request with status 429. *)
Definition always_throttled (n : nat) : Scholar.attempt_outcome :=
  Scholar.Answers (Scholar.Response 429 []).

(** The empty store after the three records of [other.pdf] were written. *)
Definition other_stored : gmap str (Store.entry Z) :=
  match Store.upsert_chunks length_embed ∅ other_records with
  | Ok c => c
  | Raise _ => ∅
  end.

(** The empty store after the five records of [paper.pdf] were written. *)
Definition paper_stored : gmap str (Store.entry Z) :=
  match Store.upsert_chunks length_embed ∅ paper_records with
  | Ok c => c
  | Raise _ => ∅
  end.

(** The records of two files with one stem, read by [plain_reader]. *)
Definition a_txt_records : list Ingest.chunk :=
  match Ingest.ingest_document broken_pdf plain_reader plain_reader
          plain_reader (py "docs/a.txt") 512 (1 # 10) with
  | Ok records => records
  | Raise _ => []
  end.
Definition a_md_records : list Ingest.chunk :=
  match Ingest.ingest_document broken_pdf plain_reader plain_reader
          plain_reader (py "notes/a.md") 512 (1 # 10) with
  | Ok records => records
  | Raise _ => []
  end.

(** A post with a permalink in the usual form. *)
Definition sample_post : Community.reddit_post :=
  Community.RedditPost (Some (py "Chunking tips")) (Some (py "Use overlap."))
    (Some 42)
    (Some (py "https://reddit.com/r/LangChain/comments/1abcde/chunking_tips/"))
    (Some (py "LangChain")) (Some 7).

(** A service that throttles the first two requests and then answers,
    and one that throttles once and then reports a server error. *)
Definition throttled_twice (n : nat) : Scholar.attempt_outcome :=
  if (n <? 2)%nat then Scholar.Answers (Scholar.Response 429 [])
  else Scholar.Answers (Scholar.Response 200 (py "{}")).
Definition throttled_then_500 (n : nat) : Scholar.attempt_outcome :=
  if (n <? 1)%nat then Scholar.Answers (Scholar.Response 429 [])
  else Scholar.Answers (Scholar.Response 500 []).

(** An assistant that repeats the question, one that always fails, and
    one that is interrupted at the question [slow]. *)
Definition echo_ask (question : str) : list str * Rag.ending :=
  ([], Rag.Answers question).
Definition failing_ask (question : str) : list str * Rag.ending :=
  ([], Rag.Fails (RequestError (py "connection refused"))).
Definition interrupted_ask (question : str) : list str * Rag.ending :=
  if bool_decide (question = py "slow") then ([], Rag.Interrupted)
  else ([], Rag.Answers question).

(** A document of three paragraphs with one text, its reader, and its
    records for chunks of two words. *)
Definition repeating_reader (path : str) : result str :=
  Ok (py "same words" ++ [nl; nl] ++ py "same words" ++ [nl; nl]
      ++ py "same words").
Definition repeated_records : list Ingest.chunk :=
  match Ingest.ingest_document broken_pdf repeating_reader plain_reader
          plain_reader (py "docs/r.md") 2 0 with
  | Ok records => records
  | Raise _ => []
  end.

(** One retrieved document with its source. *)
Definition one_hit : Retrieve.RetrievalResult Z :=
  Retrieve.Result [py "Chunks overlap."]
    [{["source" := py "paper.pdf"]}] [0].
Definition message_of (e : exn) : str :=
  match e with
  | ValueError m | HTTPError m | RequestError m | LoaderError m
  | EmbeddingError m | DecodeError m => m
  | IndexError => py "list index out of range"
  end.


End Scenario.

Import Scenario.

(** * Properties *)

(** ** Python strings: splitting, joining, stripping *)

Module PyStrFacts.

Lemma split_from_not_nil sep : forall s k, split_from sep k s <> [].
Proof.
  induction s as [|c s IH]; intros k; simpl; [discriminate|].
  destruct k as [|k]; [|apply IH].
  destruct (startswith sep (c :: s)); [discriminate|].
  destruct (split_from sep 0 s); discriminate.
Qed.

Lemma join_cons sep x y l :
  join sep (x :: y :: l) = x ++ sep ++ join sep (y :: l).
Proof. reflexivity. Qed.

Lemma join_cons_char sep c p ps :
  join sep ((c :: p) :: ps) = c :: join sep (p :: ps).
Proof. destruct ps; reflexivity. Qed.

Lemma join_snoc sep l y :
  l <> [] -> join sep (l ++ [y]) = join sep l ++ sep ++ y.
Proof.
  induction l as [|x l IH]; intros Hl; [contradiction|].
  destruct l as [|x' l]; [reflexivity|].
  change ((x :: x' :: l) ++ [y]) with (x :: (x' :: l) ++ [y]).
  cbn [app]. rewrite !join_cons. change (x' :: l ++ [y]) with ((x' :: l) ++ [y]).
  rewrite IH by discriminate. now rewrite <- !app_assoc.
Qed.

Lemma startswith_app p : forall s, startswith p s = true -> exists r, s = p ++ r.
Proof.
  induction p as [|a p IH]; intros s H; simpl in H.
  - now exists s.
  - destruct s as [|b s]; [discriminate|].
    apply andb_prop in H as [Hab Hps]. apply Ascii.eqb_eq in Hab as ->.
    destruct (IH s Hps) as [r ->]. now exists r.
Qed.

(** Joining the pieces with the separator gives the text back. *)
Lemma join_split_from sep :
  sep <> [] -> forall s k, join sep (split_from sep k s) = skipn k s.
Proof.
  intros Hsep. induction s as [|c s IH]; intros k.
  - now destruct k.
  - destruct k as [|k]; [|apply IH].
    cbn [split_from skipn]. destruct (startswith sep (c :: s)) eqn:Hst.
    + apply startswith_app in Hst as [r Hr].
      destruct sep as [|a sep']; [contradiction|].
      injection Hr as <- ->.
      replace (length (c :: sep') - 1)%nat with (length sep')
        by (cbn [length]; lia).
      pose proof (split_from_not_nil (c :: sep') (sep' ++ r) (length sep'))
        as Hne.
      destruct (split_from _ _ _) as [|y l] eqn:Hsplit; [contradiction|].
      rewrite join_cons, <- Hsplit, IH.
      rewrite skipn_app, Nat.sub_diag, skipn_all. reflexivity.
    + pose proof (split_from_not_nil sep s 0) as Hne.
      specialize (IH 0%nat). cbn [skipn] in IH.
      destruct (split_from sep 0 s) as [|p ps]; [contradiction|].
      now rewrite join_cons_char, IH.
Qed.

Lemma join_split_on sep s : sep <> [] -> join sep (split_on sep s) = s.
Proof. intros Hsep. apply (join_split_from sep Hsep s 0). Qed.

Lemma blank_app s t : blank (s ++ t) = blank s && blank t.
Proof. apply forallb_app. Qed.

Lemma blank_rev s : blank (rev s) = blank s.
Proof.
  unfold blank. induction s as [|c s IH]; [reflexivity|].
  cbn [rev]. rewrite forallb_app, IH. cbn [forallb].
  now rewrite andb_true_r, andb_comm.
Qed.

(** Pieces of a blank text are blank. *)
Lemma blank_join_pieces sep l :
  blank (join sep l) = true -> Forall (fun p => blank p = true) l.
Proof.
  induction l as [|x l IH]; intros H; [constructor|].
  destruct l as [|y l].
  - constructor; [exact H | constructor].
  - rewrite join_cons, !blank_app in H.
    apply andb_prop in H as [Hx H]. apply andb_prop in H as [_ H].
    constructor; [exact Hx | now apply IH].
Qed.

(** Blank pieces joined with a blank separator are blank. *)
Lemma blank_pieces_join sep l :
  blank sep = true -> Forall (fun p => blank p = true) l ->
  blank (join sep l) = true.
Proof.
  intros Hsep. induction 1 as [|x l Hx Hl IH]; [reflexivity|].
  destruct l as [|y l]; [exact Hx|].
  rewrite join_cons, !blank_app, Hx, Hsep. exact IH.
Qed.

Lemma lstrip_nil s : lstrip s = [] <-> blank s = true.
Proof.
  induction s as [|c s IH]; [easy|].
  cbn [lstrip blank forallb]. destruct (isspace c); [exact IH|easy].
Qed.

Lemma lstrip_head s c t : lstrip s = c :: t -> isspace c = false.
Proof.
  induction s as [|d s IH]; [discriminate|].
  cbn [lstrip]. destruct (isspace d) eqn:Hd; [exact IH|].
  now intros [= <- _].
Qed.

Lemma lstrip_blank s : blank (lstrip s) = blank s.
Proof.
  induction s as [|c s IH]; [reflexivity|].
  cbn [lstrip]. destruct (isspace c) eqn:Hc; [|reflexivity].
  rewrite IH. cbn [blank forallb]. now rewrite Hc.
Qed.

(** [strip] gives the empty string exactly on blank strings. *)
Lemma strip_nil s : strip s = [] <-> blank s = true.
Proof.
  unfold strip, rstrip. split.
  - intros H. apply (f_equal (@rev ascii)) in H.
    rewrite rev_involutive in H. cbn [rev] in H.
    apply lstrip_nil in H. now rewrite blank_rev, lstrip_blank in H.
  - intros H. apply lstrip_nil in H. now rewrite H.
Qed.

(** A stripped string that is not empty ends in a character that is not
    whitespace. *)
Lemma strip_last s :
  strip s <> [] -> exists t c, strip s = t ++ [c] /\ isspace c = false.
Proof.
  unfold strip, rstrip. intros H.
  destruct (lstrip (rev (lstrip s))) as [|c t] eqn:Hl; [contradiction|].
  exists (rev t), c. split; [reflexivity|]. eapply lstrip_head, Hl.
Qed.

Lemma strip_not_blank s : strip s <> [] -> blank (strip s) = false.
Proof.
  intros H. destruct (strip_last s H) as (t & c & -> & Hc).
  rewrite blank_app. cbn [blank forallb]. rewrite Hc.
  now rewrite andb_false_r.
Qed.

(** A text that is not blank has a paragraph that is not blank. *)
Lemma split_paragraphs_not_blank text :
  blank text = false ->
  exists para0, In para0 (split_on [nl; nl] text) /\ strip para0 <> [].
Proof.
  intros Htext.
  destruct (existsb (fun p => negb (blank p)) (split_on [nl; nl] text))
    eqn:Hex.
  - apply existsb_exists in Hex as (p & Hin & Hp).
    exists p. split; [exact Hin|]. intros Hs. apply strip_nil in Hs.
    now rewrite Hs in Hp.
  - exfalso. rewrite <- (join_split_on [nl; nl] text) in Htext by discriminate.
    rewrite blank_pieces_join in Htext; [discriminate|reflexivity|].
    apply List.Forall_forall. intros p Hin.
    destruct (blank p) eqn:Hp; [reflexivity|].
    assert (Hc : existsb (fun p => negb (blank p)) (split_on [nl; nl] text)
                 = true).
    { apply existsb_exists. exists p. now rewrite Hp. }
    congruence.
Qed.

(** A stripped paragraph that is not empty has a sentence that is not
    blank: were all pieces blank, the paragraph would be blank or end in
    the space of a separator. *)
Lemma split_sentences_not_blank para0 :
  strip para0 <> [] ->
  exists sent0, In sent0 (split_on (py ". ") (strip para0))
                /\ strip sent0 <> [].
Proof.
  intros Hpara.
  destruct (existsb (fun p => negb (blank p))
              (split_on (py ". ") (strip para0))) eqn:Hex.
  - apply existsb_exists in Hex as (p & Hin & Hp).
    exists p. split; [exact Hin|]. intros Hs. apply strip_nil in Hs.
    now rewrite Hs in Hp.
  - exfalso.
    assert (Hall : forall p, In p (split_on (py ". ") (strip para0)) ->
                             blank p = true).
    { intros p Hin. destruct (blank p) eqn:Hp; [reflexivity|].
      assert (Hc : existsb (fun p => negb (blank p))
                     (split_on (py ". ") (strip para0)) = true).
      { apply existsb_exists. exists p. now rewrite Hp. }
      congruence. }
    pose proof (join_split_on (py ". ") (strip para0)) as Hjoin.
    specialize (Hjoin ltac:(discriminate)).
    pose proof (split_from_not_nil (py ". ") (strip para0) 0) as Hne.
    fold (split_on (py ". ") (strip para0)) in Hne.
    destruct (strip_last para0 Hpara) as (t & c & Hpc & Hc).
    destruct (exists_last Hne) as (init & lastp & Hpieces).
    rewrite Hpieces in Hjoin, Hall.
    assert (Hlast : blank lastp = true)
      by (apply Hall, in_or_app; right; now left).
    destruct init as [|x init].
    + cbn [app join] in Hjoin.
      pose proof (strip_not_blank para0 Hpara) as Hnb.
      rewrite <- Hjoin in Hnb. congruence.
    + rewrite join_snoc in Hjoin by discriminate.
      rewrite Hpc in Hjoin.
      apply (f_equal (@rev ascii)) in Hjoin.
      rewrite !rev_app_distr in Hjoin. cbn [rev app py] in Hjoin.
      destruct (rev lastp) as [|d r] eqn:Hr.
      * cbn in Hjoin. injection Hjoin as Hd _. subst c. discriminate Hc.
      * cbn in Hjoin. injection Hjoin as Hd _. subst d.
        rewrite <- blank_rev, Hr in Hlast. cbn [blank forallb] in Hlast.
        rewrite Hc in Hlast. discriminate.
Qed.

End PyStrFacts.

(** ** [chunk_text] *)

Module ChunkFacts.

Import Ingest PyStrFacts.

Lemma truthy_true {A} (l : list A) : truthy l = true <-> l <> [].
Proof. destruct l; simpl; split; intros H; congruence. Qed.

Lemma app_extends_assoc {A} (a x y : list A) :
  exists extra, (a ++ x) ++ y = a ++ extra.
Proof. exists (x ++ y). now rewrite app_assoc. Qed.

Section Sized.

Variable chunk_size overlap_size : Z.

Abbreviation sentence_step := (sentence_step chunk_size overlap_size).
Abbreviation chunk_sentences := (chunk_sentences chunk_size overlap_size).
Abbreviation paragraph_step := (paragraph_step chunk_size overlap_size).
Abbreviation chunk_text_sized := (chunk_text_sized chunk_size overlap_size).

(** *** The sentence loop *)

Lemma sentence_step_blank st s : strip s = [] -> sentence_step st s = st.
Proof.
  intros H. unfold Ingest.sentence_step. destruct st as [[chunks sc] sz].
  now rewrite H.
Qed.

Lemma sentence_step_nonblank chunks sc sz s :
  strip s <> [] ->
  sentence_step (chunks, sc, sz) s
  = if (sz + len (split_ws (strip s)) >? chunk_size) && truthy sc
    then (chunks ++ [join (py ". ") sc ++ py "."],
          slice_to overlap_size (split_ws (List.last sc [])) ++ [strip s],
          len (slice_to overlap_size (split_ws (List.last sc [])))
          + len (split_ws (strip s)))
    else (chunks, sc ++ [strip s], sz + len (split_ws (strip s))).
Proof.
  intros H. unfold Ingest.sentence_step.
  destruct (strip s) as [|c t] eqn:E; [contradiction|]. cbn [truthy negb].
  now destruct ((sz + _ >? chunk_size) && truthy sc).
Qed.

(** After a sentence that is not blank, the accumulator ends with it. *)
Lemma sentence_step_acc st s :
  strip s <> [] -> exists pre, (sentence_step st s).1.2 = pre ++ [strip s].
Proof.
  intros H. destruct st as [[chunks sc] sz].
  rewrite sentence_step_nonblank by exact H.
  destruct (_ && _); cbn [fst snd]; eauto.
Qed.

(** The chunks emitted so far are never taken back. *)
Lemma sentence_step_chunks st s :
  exists extra, (sentence_step st s).1.1 = st.1.1 ++ extra.
Proof.
  destruct (decide (strip s = [])) as [Hb|Hn].
  - rewrite sentence_step_blank by exact Hb. exists []. now rewrite app_nil_r.
  - destruct st as [[chunks sc] sz].
    rewrite sentence_step_nonblank by exact Hn.
    destruct (_ && _); cbn [fst snd]; [eauto|].
    exists []. now rewrite app_nil_r.
Qed.

Lemma sentence_fold_chunks l :
  forall st, exists extra,
    (fold_left sentence_step l st).1.1 = st.1.1 ++ extra.
Proof.
  induction l as [|s l IH]; intros st; cbn [fold_left].
  - exists []. now rewrite app_nil_r.
  - destruct (IH (sentence_step st s)) as [e1 H1].
    destruct (sentence_step_chunks st s) as [e2 H2].
    rewrite H1, H2. apply app_extends_assoc.
Qed.

Lemma sentence_fold_acc l :
  forall st,
    st.1.2 <> [] \/ (exists s, In s l /\ strip s <> []) ->
    (fold_left sentence_step l st).1.2 <> [].
Proof.
  induction l as [|s l IH]; intros st H; cbn [fold_left].
  - destruct H as [H | (s & [] & _)]. exact H.
  - apply IH.
    destruct (decide (strip s = [])) as [Hb|Hn].
    + rewrite sentence_step_blank by exact Hb.
      destruct H as [H | (s' & [<- | Hin] & Hs')];
        try contradiction; eauto.
    + left. destruct (sentence_step_acc st s Hn) as [pre ->].
      now destruct pre.
Qed.

Lemma chunk_sentences_extends chunks para :
  exists extra, chunk_sentences chunks para = chunks ++ extra.
Proof.
  unfold Ingest.chunk_sentences.
  destruct (sentence_fold_chunks (split_on (py ". ") para) (chunks, [], 0))
    as [extra H].
  destruct (fold_left _ _ _) as [[chunks1 sc] sz]. cbn [fst snd] in H.
  subst chunks1. destruct (truthy sc).
  - apply app_extends_assoc.
  - eauto.
Qed.

(** A stripped paragraph that is not empty gives at least one chunk. *)
Lemma chunk_sentences_not_nil chunks para0 :
  strip para0 <> [] -> chunk_sentences chunks (strip para0) <> [].
Proof.
  intros Hpara. unfold Ingest.chunk_sentences.
  pose proof (sentence_fold_acc (split_on (py ". ") (strip para0))
                (chunks, [], 0)) as Hacc.
  destruct (fold_left _ _ _) as [[chunks1 sc] sz]. cbn [fst snd] in Hacc.
  assert (Hsc : sc <> []).
  { apply Hacc. right. now apply split_sentences_not_blank. }
  apply truthy_true in Hsc. rewrite Hsc. now destruct chunks1.
Qed.

(** *** The paragraph loop *)

Lemma paragraph_step_blank st p : strip p = [] -> paragraph_step st p = st.
Proof.
  intros H. unfold Ingest.paragraph_step. destruct st as [[chunks cur] sz].
  now rewrite H.
Qed.

Lemma paragraph_step_large chunks cur sz p :
  strip p <> [] -> len (split_ws (strip p)) > chunk_size ->
  paragraph_step (chunks, cur, sz) p
  = if truthy cur
    then (chunk_sentences (chunks ++ [join (py " ") cur]) (strip p), [], 0)
    else (chunk_sentences chunks (strip p), cur, sz).
Proof.
  intros H Hlarge. unfold Ingest.paragraph_step.
  destruct (strip p) as [|c t] eqn:E; [contradiction|]. cbn [truthy negb].
  replace (len (split_ws (c :: t)) >? chunk_size) with true
    by (symmetry; apply Z.gtb_lt; lia).
  now destruct (truthy cur).
Qed.

Lemma paragraph_step_small chunks cur sz p :
  strip p <> [] -> len (split_ws (strip p)) <= chunk_size ->
  exists chunks1 cur1 sz1,
    paragraph_step (chunks, cur, sz) p = (chunks1, cur1 ++ [strip p], sz1)
    /\ exists extra, chunks1 = chunks ++ extra.
Proof.
  intros H Hsmall. unfold Ingest.paragraph_step.
  destruct (strip p) as [|c t] eqn:E; [contradiction|]. cbn [truthy negb].
  replace (len (split_ws (c :: t)) >? chunk_size) with false
    by (symmetry; rewrite Z.gtb_ltb; apply Z.ltb_ge; lia).
  destruct (_ && _).
  - do 3 eexists. split; [reflexivity|]. eauto.
  - do 3 eexists. split; [reflexivity|]. exists []. now rewrite app_nil_r.
Qed.

(** What a flush on the paragraph path leaves in the accumulator: the last
    [overlap_size] paragraphs of the chunk just emitted, counted as that
    many words. *)
Lemma paragraph_step_flush chunks cur sz p :
  strip p <> [] -> len (split_ws (strip p)) <= chunk_size ->
  sz + len (split_ws (strip p)) > chunk_size -> cur <> [] ->
  paragraph_step (chunks, cur, sz) p
  = let kept := if overlap_size >? 0
                then last_n (Z.to_nat overlap_size) cur else [] in
    (chunks ++ [join (py " ") cur], kept ++ [strip p],
     len kept + len (split_ws (strip p))).
Proof.
  intros H Hsmall Hover Hcur. unfold Ingest.paragraph_step.
  destruct (strip p) as [|c t] eqn:E; [contradiction|]. cbn [truthy negb].
  replace (len (split_ws (c :: t)) >? chunk_size) with false
    by (symmetry; rewrite Z.gtb_ltb; apply Z.ltb_ge; lia).
  replace (sz + len (split_ws (c :: t)) >? chunk_size) with true
    by (symmetry; apply Z.gtb_lt; lia).
  apply truthy_true in Hcur. rewrite Hcur. reflexivity.
Qed.

Lemma paragraph_step_chunks st p :
  exists extra, (paragraph_step st p).1.1 = st.1.1 ++ extra.
Proof.
  destruct st as [[chunks cur] sz].
  destruct (decide (strip p = [])) as [Hb|Hn].
  - rewrite paragraph_step_blank by exact Hb. exists []. now rewrite app_nil_r.
  - destruct (Z_gt_le_dec (len (split_ws (strip p))) chunk_size) as [Hl|Hs].
    + rewrite paragraph_step_large by assumption.
      destruct (truthy cur); cbn [fst snd].
      * destruct (chunk_sentences_extends (chunks ++ [join (py " ") cur])
                    (strip p)) as [extra ->].
        apply app_extends_assoc.
      * apply chunk_sentences_extends.
    + destruct (paragraph_step_small chunks cur sz p Hn Hs)
        as (chunks1 & cur1 & sz1 & -> & extra & ->).
      cbn [fst snd]. eauto.
Qed.


Lemma paragraph_step_pending st p : pending st -> pending (paragraph_step st p).
Proof.
  intros [Hc | Hcur].
  - left. destruct (paragraph_step_chunks st p) as [extra ->].
    now destruct st.1.1.
  - destruct st as [[chunks cur] sz]. cbn [fst snd] in Hcur.
    destruct (decide (strip p = [])) as [Hb|Hn].
    + rewrite paragraph_step_blank by exact Hb. now right.
    + destruct (Z_gt_le_dec (len (split_ws (strip p))) chunk_size) as [Hl|Hs].
      * left. rewrite paragraph_step_large by assumption.
        destruct (truthy cur); cbn [fst snd];
          now apply chunk_sentences_not_nil.
      * right. destruct (paragraph_step_small chunks cur sz p Hn Hs)
          as (chunks1 & cur1 & sz1 & -> & _).
        cbn [fst snd]. now destruct cur1.
Qed.

Lemma paragraph_step_nonblank_pending st p :
  strip p <> [] -> pending (paragraph_step st p).
Proof.
  intros Hn. destruct st as [[chunks cur] sz].
  destruct (Z_gt_le_dec (len (split_ws (strip p))) chunk_size) as [Hl|Hs].
  - left. rewrite paragraph_step_large by assumption.
    destruct (truthy cur); cbn [fst snd]; now apply chunk_sentences_not_nil.
  - right. destruct (paragraph_step_small chunks cur sz p Hn Hs)
      as (chunks1 & cur1 & sz1 & -> & _).
    cbn [fst snd]. now destruct cur1.
Qed.

Lemma paragraph_fold_pending l :
  forall st,
    pending st \/ (exists p, In p l /\ strip p <> []) ->
    pending (fold_left paragraph_step l st).
Proof.
  induction l as [|p l IH]; intros st H; cbn [fold_left].
  - destruct H as [H | (p & [] & _)]. exact H.
  - apply IH. destruct H as [H | (p' & [<- | Hin] & Hp')].
    + left. now apply paragraph_step_pending.
    + left. now apply paragraph_step_nonblank_pending.
    + right. eauto.
Qed.

Lemma paragraph_fold_blank l :
  forall st,
    (forall p, In p l -> strip p = []) -> fold_left paragraph_step l st = st.
Proof.
  induction l as [|p l IH]; intros st H; cbn [fold_left]; [reflexivity|].
  rewrite paragraph_step_blank by (apply H; now left).
  apply IH. intros q Hq. apply H. now right.
Qed.

Lemma chunk_text_sized_not_nil text :
  blank text = false -> chunk_text_sized text <> [].
Proof.
  intros Htext. unfold Ingest.chunk_text_sized.
  pose proof (paragraph_fold_pending (split_on [nl; nl] text) ([], [], 0))
    as Hp.
  destruct (fold_left _ _ _) as [[chunks cur] sz].
  destruct Hp as [Hc | Hcur].
  { right. now apply split_paragraphs_not_blank. }
  - cbn [fst snd] in Hc. destruct (truthy cur); [now destruct chunks|exact Hc].
  - cbn [fst snd] in Hcur. apply truthy_true in Hcur. rewrite Hcur.
    now destruct chunks.
Qed.

Lemma chunk_text_sized_blank text :
  blank text = true -> chunk_text_sized text = [].
Proof.
  intros Htext. unfold Ingest.chunk_text_sized.
  rewrite paragraph_fold_blank; [reflexivity|].
  intros p Hp. apply strip_nil.
  rewrite <- (join_split_on [nl; nl] text) in Htext by discriminate.
  apply blank_join_pieces in Htext.
  rewrite List.Forall_forall in Htext. now apply Htext.
Qed.

(** *** Sentences are emitted whole *)






End Sized.




Example chunk_text_four_sentences :
  chunk_text four_sentences 4 (1 # 2)
  = [py "One two three four five six."; py "One. two. Seven eight.";
     py "Seven. eight. Nine ten eleven twelve thirteen.";
     py "Nine. ten. x."].
Proof. vm_compute. reflexivity. Qed.

Example chunk_text_two_short :
  chunk_text (py "A short para." ++ [nl; nl] ++ py "Another short para.")
    100 (1 # 10)
  = [py "A short para. Another short para."].
Proof. vm_compute. reflexivity. Qed.

(** C1: the paragraph path keeps the last [overlap_size] paragraphs of the
    accumulator, not its last [overlap_size] words.  With [chunk_size = 10]
    and [overlap_ratio = 0.1] the overlap is one word, yet the second chunk
    of two six-word paragraphs starts with all six words of the first. *)
Theorem paragraph_overlap_counts_paragraphs :
  int_of_Q (inject_Z 10 * (1 # 10)) = 1
  /\ chunk_text two_paragraphs 10 (1 # 10)
     = [py "a b c d e f"; py "a b c d e f g h i j k l"]
  /\ shared_words (py "a b c d e f") (py "a b c d e f g h i j k l") = 6%nat.
Proof. repeat split; vm_compute; reflexivity. Qed.

(** C4, as the code has it: [chunk_text] returns a non-empty sequence for
    every text with a character that is not whitespace, and the empty
    sequence for every text without one, the empty text among them. *)
Theorem chunk_text_empty_iff_blank
  (text : str) (chunk_size : Z) (overlap_ratio : Q) :
  (blank text = false -> chunk_text text chunk_size overlap_ratio <> [])
  /\ (blank text = true -> chunk_text text chunk_size overlap_ratio = []).
Proof.
  unfold chunk_text. split.
  - apply chunk_text_sized_not_nil.
  - apply chunk_text_sized_blank.
Qed.

Lemma chunk_text_empty_iff_blank_witness :
  chunk_text (py " x ") 512 (1 # 10) <> []
  /\ chunk_text [] 512 (1 # 10) = [].
Proof.
  split.
  - apply (proj1 (chunk_text_empty_iff_blank (py " x ") 512 (1 # 10))).
    reflexivity.
  - apply (proj2 (chunk_text_empty_iff_blank [] 512 (1 # 10))).
    reflexivity.
Defined.

(** C4, as stated, fails: a text of one space is not empty, and
    [chunk_text] returns the empty sequence for it. *)
Lemma chunk_text_of_space_is_empty :
  py " " <> [] /\ chunk_text (py " ") 512 (1 # 10) = [].
Proof. split; [discriminate | reflexivity]. Qed.

End ChunkFacts.

(** ** Chunk identity *)

Module IdentityFacts.

Import Ingest.

Lemma bytes_le_length n v : length (Hashlib.bytes_le n v) = n.
Proof. unfold Hashlib.bytes_le. now rewrite length_map, length_seq. Qed.


Lemma md5_length msg : length (Hashlib.md5 msg) = 16%nat.
Proof.
  unfold Hashlib.md5.
  destruct (Hashlib.blocks _ _ _) as [a b c d].
  now rewrite !length_app, !bytes_le_length.
Qed.



Lemma hexdigest_length d : length (Hashlib.hexdigest d) = (2 * length d)%nat.
Proof.
  unfold Hashlib.hexdigest. induction d as [|b d IH]; simpl; [reflexivity|].
  rewrite IH. lia.
Qed.


Lemma md5_hex_length text : length (Hashlib.md5_hex text) = 32%nat.
Proof.
  unfold Hashlib.md5_hex. now rewrite hexdigest_length, md5_length.
Qed.


Lemma str_of_int_inj a b : str_of_int a = str_of_int b -> a = b.
Proof.
  unfold str_of_int, py. intros H.
  apply (f_equal string_of_list_ascii) in H.
  rewrite !string_of_list_ascii_of_string in H.
  apply (f_equal NilEmpty.int_of_string) in H.
  rewrite !NilEmpty.isi in H. injection H as H.
  now apply DecimalZ.to_int_inj.
Qed.

(** Two identifiers of one source that agree were made for one index. *)
Lemma generate_chunk_id_index_inj source i j t t' :
  generate_chunk_id source i t = generate_chunk_id source j t' -> i = j.
Proof.
  unfold generate_chunk_id. intros H.
  apply app_inv_head in H. apply app_inv_head in H.
  apply app_inj_2 in H as [H _].
  - now apply str_of_int_inj.
  - cbn [py list_ascii_of_string app length].
    now rewrite !length_firstn, !md5_hex_length.
Qed.



End IdentityFacts.

(** ** Ingestion of a document and of a directory *)

Module IngestFacts.

Import Ingest.

Section Loaders.

Variable load_pdf load_markdown load_html load_text : str -> result str.
Variable rglob : str -> list str.

Abbreviation ingest_document :=
  (ingest_document load_pdf load_markdown load_html load_text).
Abbreviation ingest_directory :=
  (ingest_directory load_pdf load_markdown load_html load_text rglob).
Abbreviation ingest_file :=
  (ingest_file load_pdf load_markdown load_html load_text).
Abbreviation delivered :=
  (delivered load_pdf load_markdown load_html load_text).
Abbreviation reported :=
  (reported load_pdf load_markdown load_html load_text).

(** The record built at position [i] of the loop started at index [idx]. *)
Lemma ingest_records_lookup source doc_type chunks :
  forall (idx : Z) (i : nat) (r : chunk),
    ingest_records source doc_type idx chunks !! i = Some r ->
    exists c, chunks !! i = Some c
      /\ text r = c
      /\ id r = generate_chunk_id source (idx + Z.of_nat i) c
      /\ metadata r !! "source" = Some source
      /\ metadata r !! "doc_type" = Some doc_type
      /\ metadata r !! "chunk_index" = Some (str_of_int (idx + Z.of_nat i))
      /\ metadata r !! "chunk_id" = Some (id r).
Proof.
  induction chunks as [|c chunks IH]; intros idx i r Hr; [discriminate|].
  destruct i as [|i]; simpl in Hr.
  - injection Hr as <-. exists c. simpl.
    replace (idx + Z.of_nat 0) with idx by lia.
    repeat split; by simplify_map_eq.
  - apply IH in Hr as (c' & Hc & Hrest). exists c'. split; [exact Hc|].
    replace (idx + Z.of_nat (S i)) with (idx + 1 + Z.of_nat i) by lia.
    exact Hrest.
Qed.

Lemma ingest_records_length source doc_type chunks :
  forall idx, length (ingest_records source doc_type idx chunks) = length chunks.
Proof.
  induction chunks as [|c chunks IH]; intros idx; simpl; [reflexivity|].
  now rewrite IH.
Qed.

(** C10: in every record returned by [ingest_document], the metadata entry
    ['chunk_id'] is the record's own ['id'] and the entry ['chunk_index'] is
    the decimal string of the record's position, counted from 0. *)
Theorem ingest_document_metadata_consistent
  (file_path : str) (chunk_size : Z) (overlap_ratio : Q)
  (records : list chunk) (i : nat) (r : chunk) :
  ingest_document file_path chunk_size overlap_ratio = Ok records ->
  records !! i = Some r ->
  metadata r !! "chunk_id" = Some (id r)
  /\ metadata r !! "chunk_index" = Some (str_of_int (Z.of_nat i)).
Proof.
  unfold Ingest.ingest_document. intros Hdoc Hr.
  destruct (load_document _ _ _ _ file_path) as [[text doc_type]|e];
    [|discriminate].
  simpl in Hdoc. injection Hdoc as <-.
  apply ingest_records_lookup in Hr as (c & _ & _ & _ & _ & _ & Hidx & Hid).
  split; [exact Hid | exact Hidx].
Qed.

(** The loop of [ingest_directory] from any state: what is appended to the
    result and which failure lines are printed. *)
Lemma ingest_files_fold chunk_size overlap_ratio extensions files :
  forall all_chunks out,
    let st := fold_left (ingest_file chunk_size overlap_ratio extensions)
                        files (all_chunks, out) in
    st.1 = all_chunks
           ++ flat_map (delivered chunk_size overlap_ratio extensions) files
    /\ List.filter is_failure st.2
       = List.filter is_failure out
         ++ flat_map (reported chunk_size overlap_ratio extensions) files.
Proof.
  induction files as [|f files IH]; intros all_chunks out;
    cbv zeta; cbn [fold_left flat_map].
  - now rewrite !app_nil_r.
  - destruct (ingest_file chunk_size overlap_ratio extensions
                (all_chunks, out) f) as [all1 out1] eqn:Hstep.
    destruct (IH all1 out1) as [H1 H2]. cbv zeta in H1, H2.
    rewrite H1, H2. clear H1 H2 IH.
    unfold Ingest.ingest_file in Hstep.
    unfold Notions.delivered, Notions.reported.
    destruct (bool_decide _).
    + destruct (Ingest.ingest_document _ _ _ _ _ _ _) as [chunks|e];
        injection Hstep as <- <-; rewrite List.filter_app; simpl;
        rewrite <- ?app_assoc, ?app_nil_r; split; reflexivity.
    + injection Hstep as <- <-. split; reflexivity.
Qed.

Lemma delivered_nothing_on_failure chunk_size overlap_ratio extensions k e :
  Ingest.ingest_document load_pdf load_markdown load_html load_text
    (Pathlib.to_str k) chunk_size overlap_ratio = Raise e ->
  delivered chunk_size overlap_ratio extensions k = [].
Proof.
  intros Hk. unfold Notions.delivered. rewrite Hk. now destruct (bool_decide _).
Qed.

Lemma reported_nothing_on_success chunk_size overlap_ratio extensions files :
  (forall f, f ∈ files ->
     lower (Pathlib.suffix f) ∈ extensions ->
     exists chunks,
       Ingest.ingest_document load_pdf load_markdown load_html load_text
         (Pathlib.to_str f) chunk_size overlap_ratio = Ok chunks) ->
  flat_map (reported chunk_size overlap_ratio extensions) files = [].
Proof.
  induction files as [|f files IH]; intros Hok; simpl; [reflexivity|].
  rewrite IH by (intros g Hg; apply Hok; now right).
  rewrite app_nil_r. unfold Notions.reported. case_bool_decide as Hm.
  - destruct (Hok f) as [chunks ->]; [now left | exact Hm | reflexivity].
  - reflexivity.
Qed.

(** C8: when exactly one listed file [k] with an accepted extension fails,
    [ingest_directory] returns the records of all the other files, in
    listing order, and prints one failure line, the one of [k]. *)
Theorem ingest_directory_partial_failure
  (directory : str) (chunk_size : Z) (overlap_ratio : Q)
  (extensions : option (list str)) (before after : list str) (k : str)
  (e : exn) :
  rglob directory = before ++ k :: after ->
  lower (Pathlib.suffix k) ∈ default default_extensions extensions ->
  Ingest.ingest_document load_pdf load_markdown load_html load_text
    (Pathlib.to_str k) chunk_size overlap_ratio = Raise e ->
  (forall f, f ∈ before ++ after ->
     lower (Pathlib.suffix f) ∈ default default_extensions extensions ->
     exists chunks,
       Ingest.ingest_document load_pdf load_markdown load_html load_text
         (Pathlib.to_str f) chunk_size overlap_ratio = Ok chunks) ->
  (ingest_directory directory chunk_size overlap_ratio extensions).1
  = flat_map (delivered chunk_size overlap_ratio
                (default default_extensions extensions)) (before ++ after)
  /\ List.filter is_failure
       (ingest_directory directory chunk_size overlap_ratio extensions).2
     = [Failed (Pathlib.name k) e].
Proof.
  intros Hlist Hk Hfail Hothers.
  set (accepted := default default_extensions extensions) in *.
  unfold Ingest.ingest_directory. rewrite Hlist.
  replace (match extensions with Some l => l | None => default_extensions end)
    with accepted by (now destruct extensions).
  destruct (ingest_files_fold chunk_size overlap_ratio accepted
              (before ++ k :: after) [] []) as [H1 H2].
  cbv zeta in H1, H2. rewrite H1, H2. simpl. split.
  - rewrite !flat_map_app. simpl.
    now rewrite (delivered_nothing_on_failure _ _ _ _ _ Hfail).
  - rewrite flat_map_app. simpl.
    rewrite (reported_nothing_on_success _ _ _ before)
      by (intros f Hf; apply Hothers; rewrite elem_of_app; now left).
    rewrite (reported_nothing_on_success _ _ _ after)
      by (intros f Hf; apply Hothers; rewrite elem_of_app; now right).
    unfold Notions.reported. rewrite bool_decide_eq_true_2 by exact Hk.
    now rewrite Hfail.
Qed.

End Loaders.

Lemma ingest_document_metadata_consistent_witness :
  exists r,
    Ingest.ingest_document broken_pdf plain_reader plain_reader plain_reader
      (py "docs/a.txt") 512 (1 # 10) = Ok [r]
    /\ metadata r !! "chunk_id" = Some (id r)
    /\ metadata r !! "chunk_index" = Some (py "0").
Proof.
  eexists. split; [reflexivity|].
  eapply (ingest_document_metadata_consistent
            broken_pdf plain_reader plain_reader plain_reader
            (py "docs/a.txt") 512 (1 # 10) _ 0%nat);
    reflexivity.
Defined.

Lemma ingest_directory_partial_failure_witness :
  List.filter is_failure
    (Ingest.ingest_directory broken_pdf plain_reader plain_reader plain_reader
       three_files (py "docs") 512 (1 # 10) None).2
  = [Failed (py "b.pdf") (LoaderError (py "EOF marker not found"))].
Proof.
  apply (ingest_directory_partial_failure
           broken_pdf plain_reader plain_reader plain_reader three_files
           (py "docs") 512 (1 # 10) None
           [py "docs/a.txt"] [py "docs/c.md"] (py "docs/b.pdf")
           (LoaderError (py "EOF marker not found"))).
  - reflexivity.
  - apply list_elem_of_In. left. reflexivity.
  - reflexivity.
  - intros f Hf _. apply list_elem_of_In in Hf.
    destruct Hf as [<- | [<- | []]]; eexists; reflexivity.
Defined.

End IngestFacts.

(** ** The vector store *)

Module StoreFacts.

Import Ingest Store.

Section Collection.

Context {vec : Type}.
Implicit Types (c : gmap str (entry vec)) (ids : list str).

(** The ids present after a write are the old ones and the written ones. *)
Lemma collection_write_dom ids :
  forall c documents (embeddings : list vec) metadatas,
    length ids = length documents ->
    length ids = length embeddings ->
    length ids = length metadatas ->
    dom (collection_write vec c ids documents embeddings metadatas)
    = list_to_set ids ∪ dom c.
Proof.
  induction ids as [|i ids IH];
    intros c [|d ds] [|e es] [|m ms] Hd He Hm; try discriminate; simpl.
  - set_solver.
  - rewrite IH by (simpl in *; lia). rewrite dom_insert_L. set_solver.
Qed.

Lemma upsert_chunks_dom embed c chunks c' :
  upsert_chunks embed c chunks = Ok c' ->
  dom c' = list_to_set (map id chunks) ∪ dom c.
Proof.
  unfold upsert_chunks. destruct chunks as [|r chunks].
  - intros [= <-]. set_solver.
  - cbn [truthy negb]. generalize (r :: chunks) as records. intros records.
    destruct (embed _) as [embeddings|e]; [|discriminate].
    unfold mbind, result_bind, collection_upsert.
    case_bool_decide as Hlen; [|discriminate].
    intros [= <-]. destruct Hlen as (Hd & He & Hm).
    rewrite collection_write_dom by assumption. reflexivity.
Qed.

(** Writing records whose ids are all present leaves the count as it is. *)
Lemma upsert_chunks_present_count embed c chunks c' :
  upsert_chunks embed c chunks = Ok c' ->
  (forall r, r ∈ chunks -> id r ∈ dom c) ->
  dom c' = dom c /\ total_documents c' = total_documents c.
Proof.
  intros Hup Hin. apply upsert_chunks_dom in Hup.
  assert (Hdom : dom c' = dom c).
  { rewrite Hup. apply set_eq. intros i. rewrite elem_of_union.
    rewrite elem_of_list_to_set, list_elem_of_fmap. split; [|tauto].
    intros [(r & -> & Hr) | Hi]; [now apply Hin | exact Hi]. }
  split; [exact Hdom|].
  unfold total_documents, collection_count.
  now rewrite <- (size_dom c'), <- (size_dom c), Hdom.
Qed.

Lemma collection_delete_lookup ids :
  forall c i,
    collection_delete c ids !! i
    = if decide (i ∈ ids) then None else c !! i.
Proof.
  unfold collection_delete.
  induction ids as [|j ids IH]; intros c i; cbn [fold_left].
  - destruct (decide (i ∈ [])) as [H|_]; [|reflexivity].
    now apply elem_of_nil in H.
  - rewrite IH. destruct (decide (i ∈ ids)) as [Hin|Hnin].
    + now rewrite decide_True by (now right).
    + destruct (decide (i = j)) as [->|Hne].
      * rewrite lookup_delete_eq. now rewrite decide_True by left.
      * rewrite lookup_delete_ne by congruence.
        rewrite decide_False; [reflexivity|].
        apply not_elem_of_cons. now split.
Qed.

Lemma collection_get_ids_elem c source i :
  i ∈ collection_get_ids c source
  <-> exists e, c !! i = Some e /\ entry_metadata e !! "source" = Some source.
Proof.
  unfold collection_get_ids. rewrite list_elem_of_fmap. split.
  - intros ([j e] & -> & Hin). apply elem_of_map_to_list in Hin.
    apply map_lookup_filter_Some in Hin as [Hc Hs]. now exists e.
  - intros (e & Hc & Hs). exists (i, e). split; [reflexivity|].
    apply elem_of_map_to_list. now apply map_lookup_filter_Some.
Qed.

(** C7: after [delete_by_source] a record is gone exactly when its
    metadata had the given value under ['source']; every other record is
    stored as before, and without a match the store is the same. *)
Theorem delete_by_source_exact c (source : str) :
  (forall i,
      delete_by_source c source !! i
      = match c !! i with
        | Some e =>
            if decide (entry_metadata e !! "source" = Some source)
            then None else Some e
        | None => None
        end)
  /\ ((forall i e, c !! i = Some e ->
          entry_metadata e !! "source" <> Some source) ->
      delete_by_source c source = c).
Proof.
  assert (Hlookup : forall i,
      delete_by_source c source !! i
      = match c !! i with
        | Some e =>
            if decide (entry_metadata e !! "source" = Some source)
            then None else Some e
        | None => None
        end).
  { intros i. unfold delete_by_source.
    destruct (collection_get_ids c source) as [|j ids] eqn:Hids;
      cbn [truthy].
    - destruct (c !! i) as [e|] eqn:Hc; [|reflexivity].
      case_decide as Hs; [|reflexivity].
      assert (Hin : i ∈ collection_get_ids c source)
        by (apply collection_get_ids_elem; eauto).
      rewrite Hids in Hin. inversion Hin.
    - rewrite <- Hids, collection_delete_lookup.
      case_decide as Hin.
      + apply collection_get_ids_elem in Hin as (e & -> & Hs).
        now rewrite decide_True.
      + destruct (c !! i) as [e|] eqn:Hc; [|reflexivity].
        case_decide as Hs; [|reflexivity].
        exfalso. apply Hin, collection_get_ids_elem. eauto. }
  split; [exact Hlookup|].
  intros Hnone. apply map_eq. intros i. rewrite Hlookup.
  destruct (c !! i) as [e|] eqn:Hc; [|reflexivity].
  case_decide as Hs; [|reflexivity]. now apply Hnone in Hc.
Qed.

End Collection.

Lemma delete_by_source_exact_witness :
  delete_by_source eight_records (py "absent.pdf") = eight_records.
Proof.
  apply (proj2 (delete_by_source_exact eight_records (py "absent.pdf"))).
  intros i e Hi Hs.
  assert (Hin : i ∈ collection_get_ids eight_records (py "absent.pdf"))
    by (apply collection_get_ids_elem; eauto).
  vm_compute in Hin. inversion Hin.
Defined.

(** The example of the specification: five chunks of [paper.pdf] and three
    of [other.pdf] are stored; deleting [paper.pdf] leaves the three. *)
Example delete_by_source_paper :
  total_documents eight_records = 8
  /\ total_documents (delete_by_source eight_records (py "paper.pdf")) = 3
  /\ map_Forall
       (fun _ e => entry_metadata e !! "source" = Some (py "other.pdf"))
       (delete_by_source eight_records (py "paper.pdf")).
Proof.
  split; [vm_compute; reflexivity|]. split; [vm_compute; reflexivity|].
  apply map_Forall_to_list. vm_compute. repeat constructor.
Qed.

Section Query.

Context {vec query_result : Type}.
Variable embed : list str -> result (list vec).
Variable search :
  gmap str (entry vec) -> list vec -> Z -> result query_result.

(** C6: a call of [query] with [top_k <= 0] fails, for every query text
    and every store.  [query] hands [top_k] to the collection as
    [n_results], and the collection rejects it: when the embedding of the
    query text is there, the outcome is that error, after one call of the
    embedding and one call of the collection, with no second attempt.  No
    such call returns a result; none makes more than these two calls. *)
Theorem query_fails_on_non_positive_top_k
  (c : gmap str (entry vec)) (query_text : str) (top_k : Z) :
  top_k <= 0 ->
  (forall query_embedding rest,
      embed [query_text] = Ok (query_embedding :: rest) ->
      query embed (checked_query search) c query_text top_k
      = ([CallEmbed [query_text]; CallQuery top_k], Raise invalid_n_results))
  /\ (exists e,
         (query embed (checked_query search) c query_text top_k).2 = Raise e)
  /\ (exists calls,
         (query embed (checked_query search) c query_text top_k).1
         = CallEmbed [query_text] :: calls
         /\ (calls = [] \/ calls = [CallQuery top_k])).
Proof.
  intros Hk. apply Z.leb_le in Hk. unfold query, checked_query.
  rewrite Hk. split; [|split].
  - intros query_embedding rest ->. reflexivity.
  - destruct (embed [query_text]) as [[|v vs]|e]; cbn [snd]; eauto.
  - destruct (embed [query_text]) as [[|v vs]|e]; cbn [fst]; eauto.
Qed.

End Query.

Lemma query_fails_on_non_positive_top_k_witness :
  query length_embed (checked_query first_ids) ∅ (py "what is a chunk") 0
  = ([CallEmbed [py "what is a chunk"]; CallQuery 0],
     Raise invalid_n_results).
Proof.
  eapply (proj1 (query_fails_on_non_positive_top_k length_embed first_ids
                   ∅ (py "what is a chunk") 0 ltac:(lia))).
  reflexivity.
Defined.

(** The check is the collection's, not one of [query]: with the embedding
    model unavailable a call with [top_k = 0] ends in the error of the
    embedding, raised before [top_k] was handed to anyone. *)
Example query_top_k_zero_embedding_down :
  query embed_down strict_query ∅ (py "what is a chunk") 0
  = ([CallEmbed [py "what is a chunk"]],
     Raise (EmbeddingError (py "model not loaded"))).
Proof. reflexivity. Qed.

Section Reingest.

Context {vec : Type}.
Variable load_pdf load_markdown load_html load_text : str -> result str.
Variable embed : list str -> result (list vec).

(** C2: upserting the records of a document and then the records of a
    second ingestion of the same document leaves the total count of the
    store where the first upsert put it: the second pass carries the same
    ids, and an id that is present is overwritten. *)
Theorem reingest_upsert_keeps_count
  (file_path : str) (chunk_size : Z) (overlap_ratio : Q)
  (first second : list chunk) (c c1 c2 : gmap str (entry vec)) :
  ingest_document load_pdf load_markdown load_html load_text
    file_path chunk_size overlap_ratio = Ok first ->
  ingest_document load_pdf load_markdown load_html load_text
    file_path chunk_size overlap_ratio = Ok second ->
  upsert_chunks embed c first = Ok c1 ->
  upsert_chunks embed c1 second = Ok c2 ->
  map id second = map id first
  /\ dom c2 = dom c1
  /\ total_documents c2 = total_documents c1.
Proof.
  intros Hfirst Hsecond Hup1 Hup2.
  assert (second = first) as -> by congruence.
  split; [reflexivity|].
  apply (upsert_chunks_present_count embed c1 first c2 Hup2).
  intros r Hr. rewrite (upsert_chunks_dom embed c first c1 Hup1).
  apply elem_of_union_l, elem_of_list_to_set, list_elem_of_fmap. eauto.
Qed.

End Reingest.

Lemma reingest_upsert_keeps_count_witness :
  exists first c1 c2,
    ingest_document broken_pdf plain_reader plain_reader plain_reader
      (py "docs/a.txt") 512 (1 # 10) = Ok first
    /\ upsert_chunks length_embed eight_records first = Ok c1
    /\ upsert_chunks length_embed c1 first = Ok c2
    /\ total_documents c1 = 9
    /\ total_documents c2 = total_documents c1.
Proof.
  eexists _, _, _.
  split; [reflexivity|]. split; [reflexivity|]. split; [reflexivity|].
  split; [vm_compute; reflexivity|].
  eapply (reingest_upsert_keeps_count
            broken_pdf plain_reader plain_reader plain_reader length_embed
            (py "docs/a.txt") 512 (1 # 10)); reflexivity.
Defined.

End StoreFacts.

(** ** The retry loop *)

Module ScholarFacts.

Import Ingest Scholar.

Section Throttled.

Variable upstream : nat -> attempt_outcome.

Lemma waits_succ attempt n :
  waits attempt (S n) = RETRY_DELAY * (attempt + 1) :: waits (attempt + 1) n.
Proof.
  unfold waits. cbn [seq map]. f_equal; [f_equal; lia|].
  rewrite <- seq_shift, map_map. apply map_ext. intros k. f_equal. lia.
Qed.

(** As long as the service answers 429 the loop sleeps and goes on; when
    the turns are used up it raises. *)
Lemma retry_loop_throttled n :
  forall attempt last_error p,
    (forall k, (k < n)%nat ->
       exists b, upstream (sent p + k) = Answers (Response 429 b)) ->
    retry_loop upstream n attempt last_error p
    = (Raise (default (HTTPError (py "Max retries exceeded")) last_error),
       Process (sent p + n) (sleeps p ++ waits attempt n)).
Proof.
  induction n as [|n IH]; intros attempt last_error [s sl] H429.
  - cbn [retry_loop sent sleeps waits seq map].
    now rewrite Nat.add_0_r, app_nil_r.
  - destruct (H429 0%nat ltac:(lia)) as [b Hb].
    cbn [sent] in Hb. rewrite Nat.add_0_r in Hb.
    cbn [retry_loop]. unfold requests_get. cbn [sent sleeps].
    rewrite Hb. cbn [status_code]. change (429 =? 429) with true. cbv iota.
    rewrite IH.
    + unfold sleep. cbn [sent sleeps]. rewrite waits_succ, <- app_assoc.
      replace (S s + n)%nat with (s + S n)%nat by lia. reflexivity.
    + intros k Hk. unfold sleep. cbn [sent sleeps].
      destruct (H429 (S k) ltac:(lia)) as [b' Hb']. cbn [sent] in Hb'.
      exists b'. rewrite <- Hb'. f_equal. lia.
Qed.

End Throttled.

(** Only the waiting times. *)
Lemma waits_arithmetic attempt n : arithmetic RETRY_DELAY (waits attempt n).
Proof.
  intros i a b Ha Hb. unfold waits in Ha, Hb.
  rewrite list_lookup_fmap in Ha, Hb.
  destruct (seq 0 n !! i) as [x|] eqn:Hx; [|discriminate].
  destruct (seq 0 n !! S i) as [y|] eqn:Hy; [|discriminate].
  apply lookup_seq in Hx as [-> _]. apply lookup_seq in Hy as [-> _].
  simpl in Ha, Hb. injection Ha as <-. injection Hb as <-. lia.
Qed.

(** C9: under sustained throttling [_request_with_retry] makes
    [MAX_RETRIES] requests and then raises, but the waits it takes are
    2, 4 and 6 seconds: they grow by a constant step and are not a
    geometric progression, although the code calls them exponential. *)
Theorem throttled_waits_not_exponential :
  _request_with_retry always_throttled MAX_RETRIES (Process 0 [])
  = (Raise (HTTPError (py "Max retries exceeded")),
     Process 3 [2000; 4000; 6000])
  /\ arithmetic 2000 [2000; 4000; 6000]
  /\ ~ geometric [2000; 4000; 6000].
Proof.
  split; [reflexivity|]. split.
  - apply (waits_arithmetic 0 3).
  - intros Hg. specialize (Hg 0%nat 2000 4000 6000 eq_refl eq_refl eq_refl).
    discriminate Hg.
Qed.

(** The error raised for one topic stays in [discover_rag_papers]: seven
    topics, seven printed errors, an empty result and no exception. *)
Example discover_rag_papers_throttled :
  discover_rag_papers always_throttled (fun _ => Ok []) (Process 0 [])
  = ([], repeat (HTTPError (py "Max retries exceeded")) 7,
     Process 21 (concat (repeat [2000; 4000; 6000] 7))).
Proof. vm_compute. reflexivity. Qed.

End ScholarFacts.

(** ** More on the retry loop and on topic discovery *)

Module ScholarMore.

Import Ingest Scholar ScholarFacts.

Section Loop.

Variable upstream : nat -> attempt_outcome.

Lemma waits_length attempt n : length (waits attempt n) = n.
Proof. unfold waits. now rewrite length_map, length_seq. Qed.

(** Whatever the service does, the loop of [n] turns sends at most [n]
    requests, and the waits it takes are the first waits of the schedule. *)
Lemma retry_loop_bounded n :
  forall attempt last_error p,
    (sent (retry_loop upstream n attempt last_error p).2 <= sent p + n)%nat
    /\ exists k, (k <= n)%nat
         /\ sleeps (retry_loop upstream n attempt last_error p).2
            = sleeps p ++ waits attempt k.
Proof.
  induction n as [|n IH]; intros attempt last_error p.
  - cbn [retry_loop snd]. split; [lia|].
    exists 0%nat. split; [lia|]. cbn. now rewrite app_nil_r.
  - cbn [retry_loop]. unfold requests_get.
    destruct (upstream (sent p)) as [r|msg]; cbn [snd fst].
    + destruct (status_code r =? 429).
      * destruct (IH (attempt + 1) last_error
                     (sleep (RETRY_DELAY * (attempt + 1))
                        (Process (S (sent p)) (sleeps p))))
          as [Hs (k & Hk & Hw)].
        unfold sleep in *. cbn [sent sleeps] in *. split; [lia|].
        exists (S k). split; [lia|].
        rewrite Hw, waits_succ, <- app_assoc. reflexivity.
      * destruct (raise_for_status r) as [[]|e]; cbn [negb snd sent sleeps];
          (split; [lia|]); exists 0%nat; (split; [lia|]);
          cbn; now rewrite app_nil_r.
    + cbn [sent sleeps]. split; [lia|].
      exists 0%nat. split; [lia|]. cbn. now rewrite app_nil_r.
Qed.

(** X: for any upstream service, [_request_with_retry] sends at most
    [max_retries] requests, and the durations it sleeps are the first [k]
    values 2, 4, 6, ... seconds of the schedule for some [k] up to
    [max_retries]. *)
Theorem request_with_retry_bounded (max_retries : Z) (p : process) :
  (sent (_request_with_retry upstream max_retries p).2
   <= sent p + Z.to_nat max_retries)%nat
  /\ exists k, (k <= Z.to_nat max_retries)%nat
       /\ sleeps (_request_with_retry upstream max_retries p).2
          = sleeps p ++ waits 0 k.
Proof. apply retry_loop_bounded. Qed.

(** After [k] throttled answers the next outcome, when it is not a 429,
    ends the loop. *)
Lemma retry_loop_throttled_then n k :
  forall attempt last_error p,
    (k < n)%nat ->
    (forall i, (i < k)%nat ->
       exists b, upstream (sent p + i) = Answers (Response 429 b)) ->
    retry_loop upstream n attempt last_error p
    = retry_loop upstream (n - k) (attempt + Z.of_nat k) last_error
        (Process (sent p + k) (sleeps p ++ waits attempt k)).
Proof.
  revert n. induction k as [|k IH]; intros n attempt last_error [s sl] Hk H429.
  - cbn [sent sleeps waits seq map]. f_equal; try lia.
    now rewrite Nat.add_0_r, app_nil_r.
  - destruct n as [|n]; [lia|].
    destruct (H429 0%nat ltac:(lia)) as [b Hb].
    cbn [sent] in Hb. rewrite Nat.add_0_r in Hb.
    cbn [retry_loop]. unfold requests_get. cbn [sent sleeps].
    rewrite Hb. cbn [status_code]. change (429 =? 429) with true. cbv iota.
    rewrite IH.
    + unfold sleep. cbn [sent sleeps Nat.sub].
      rewrite waits_succ, <- app_assoc.
      replace (S s + k)%nat with (s + S k)%nat by lia.
      replace (attempt + 1 + Z.of_nat k) with (attempt + Z.of_nat (S k))
        by lia.
      reflexivity.
    + lia.
    + intros i Hi. unfold sleep. cbn [sent sleeps].
      destruct (H429 (S i) ltac:(lia)) as [b' Hb']. cbn [sent] in Hb'.
      exists b'. rewrite <- Hb'. f_equal. lia.
Qed.

(** X: when the first [k] answers are 429 and the next one has a status
    outside 400..599, with [k] below [max_retries], that answer is
    returned after [k + 1] requests and the first [k] waits. *)
Theorem request_with_retry_succeeds_after
  (max_retries : Z) (k : nat) (r : response) (p : process) :
  (k < Z.to_nat max_retries)%nat ->
  (forall i, (i < k)%nat ->
     exists b, upstream (sent p + i) = Answers (Response 429 b)) ->
  upstream (sent p + k) = Answers r ->
  status_code r < 400 \/ 600 <= status_code r ->
  _request_with_retry upstream max_retries p
  = (Ok r, Process (sent p + k + 1) (sleeps p ++ waits 0 k)).
Proof.
  intros Hk H429 Hr Hstatus. unfold _request_with_retry.
  rewrite (retry_loop_throttled_then _ k) by assumption.
  destruct (Z.to_nat max_retries - k)%nat as [|m] eqn:Hm; [lia|].
  cbn [retry_loop]. unfold requests_get. cbn [sent sleeps]. rewrite Hr.
  replace (status_code r =? 429) with false by (symmetry; apply Z.eqb_neq; lia).
  unfold raise_for_status.
  replace ((400 <=? status_code r) && (status_code r <? 600)) with false.
  - repeat f_equal. lia.
  - symmetry. apply andb_false_iff.
    destruct Hstatus; [left; apply Z.leb_gt | right; apply Z.ltb_ge]; lia.
Qed.

(** X: an answer with an error status other than 429 is not retried: after
    [k] throttled answers, a status in 400..599 that is not 429 is raised
    as an [HTTPError] at once; a failure of the transport is raised as it
    is. *)
Theorem request_with_retry_error_not_retried
  (max_retries : Z) (k : nat) (p : process) :
  (k < Z.to_nat max_retries)%nat ->
  (forall i, (i < k)%nat ->
     exists b, upstream (sent p + i) = Answers (Response 429 b)) ->
  (forall r, upstream (sent p + k) = Answers r ->
     400 <= status_code r < 600 -> status_code r <> 429 ->
     _request_with_retry upstream max_retries p
     = (Raise (HTTPError (str_of_int (status_code r))),
        Process (sent p + k + 1) (sleeps p ++ waits 0 k)))
  /\ (forall msg, upstream (sent p + k) = Breaks msg ->
        _request_with_retry upstream max_retries p
        = (Raise (RequestError msg),
           Process (sent p + k + 1) (sleeps p ++ waits 0 k))).
Proof.
  intros Hk H429. unfold _request_with_retry.
  rewrite (retry_loop_throttled_then _ k) by assumption.
  destruct (Z.to_nat max_retries - k)%nat as [|m] eqn:Hm; [lia|].
  cbn [retry_loop]. unfold requests_get. cbn [sent sleeps]. split.
  - intros r Hr Hstatus Hne. rewrite Hr.
    replace (status_code r =? 429) with false
      by (symmetry; now apply Z.eqb_neq).
    unfold raise_for_status.
    replace ((400 <=? status_code r) && (status_code r <? 600)) with true.
    + cbn [negb]. repeat f_equal. lia.
    + symmetry. apply andb_true_iff. split; [apply Z.leb_le | apply Z.ltb_lt]; lia.
  - intros msg Hb. rewrite Hb. repeat f_equal. lia.
Qed.

Variable chunks_of_response : response -> result (list chunk).

(** The identifiers kept so far are distinct and all recorded as seen. *)
Lemma keep_unseen_distinct chunks :
  forall (seen_ids : gset str) (all_chunks : list chunk),
    NoDup (map id all_chunks) ->
    (forall c, c ∈ all_chunks -> id c ∈ seen_ids) ->
    NoDup (map id (fold_left keep_unseen chunks (seen_ids, all_chunks)).2)
    /\ forall c, c ∈ (fold_left keep_unseen chunks (seen_ids, all_chunks)).2 ->
         id c ∈ (fold_left keep_unseen chunks (seen_ids, all_chunks)).1.
Proof.
  induction chunks as [|c chunks IH]; intros seen_ids all_chunks Hnd Hseen;
    cbn [fold_left].
  - split; assumption.
  - unfold keep_unseen at 2 4 6. case_bool_decide as Hin.
    + now apply IH.
    + apply IH.
      * rewrite map_app. cbn [map]. apply NoDup_app. split; [exact Hnd|].
        split; [|apply NoDup_singleton].
        intros x Hx Hx'. apply list_elem_of_singleton in Hx'. subst x.
        apply list_elem_of_fmap in Hx as (c' & Heq & Hc').
        apply Hin. rewrite Heq. now apply Hseen.
      * intros c' Hc'. apply elem_of_app in Hc' as [Hc' | Hc'].
        -- apply elem_of_union_r. now apply Hseen.
        -- apply list_elem_of_singleton in Hc'. subst c'.
           apply elem_of_union_l. now apply elem_of_singleton.
Qed.

Lemma discover_topics_distinct topics :
  forall (seen_ids : gset str) (all_chunks : list chunk) errors p,
    NoDup (map id all_chunks) ->
    (forall c, c ∈ all_chunks -> id c ∈ seen_ids) ->
    NoDup (map id
             (fold_left (discover_topic upstream chunks_of_response) topics
                (seen_ids, all_chunks, errors, p)).1.1.2).
Proof.
  induction topics as [|topic topics IH];
    intros seen_ids all_chunks errors p Hnd Hseen; cbn [fold_left].
  - exact Hnd.
  - unfold discover_topic at 2.
    destruct (search_and_ingest upstream chunks_of_response p)
      as [[chunks|e] p1].
    + pose proof (keep_unseen_distinct chunks seen_ids all_chunks Hnd Hseen)
        as [Hnd1 Hseen1].
      destruct (fold_left keep_unseen chunks (seen_ids, all_chunks))
        as [seen1 all1].
      now apply IH.
    + now apply IH.
Qed.

(** X: whatever the service answers and however the answers decode, the
    chunks returned by [discover_rag_papers] have pairwise distinct ids. *)
Theorem discover_rag_papers_distinct_ids (p : process) :
  NoDup (map id (discover_rag_papers upstream chunks_of_response p).1.1).
Proof.
  unfold discover_rag_papers.
  pose proof (discover_topics_distinct RAG_TOPICS ∅ [] [] p) as H.
  destruct (fold_left _ RAG_TOPICS _) as [[[seen all_chunks] errors] p1].
  cbn [fst snd] in *. apply H; [constructor|].
  intros c Hc. inversion Hc.
Qed.

End Loop.

Lemma request_with_retry_succeeds_after_witness :
  _request_with_retry throttled_twice MAX_RETRIES (Process 0 [])
  = (Ok (Response 200 (py "{}")), Process 3 [2000; 4000]).
Proof.
  apply (request_with_retry_succeeds_after throttled_twice MAX_RETRIES 2
           (Response 200 (py "{}")) (Process 0 [])).
  - vm_compute. lia.
  - intros i Hi. exists []. destruct i as [|[|i]]; [reflexivity..|exfalso; lia].
  - reflexivity.
  - left. vm_compute. reflexivity.
Defined.

Lemma request_with_retry_error_not_retried_witness :
  _request_with_retry throttled_then_500 MAX_RETRIES (Process 0 [])
  = (Raise (HTTPError (py "500")), Process 2 [2000]).
Proof.
  apply (proj1 (request_with_retry_error_not_retried throttled_then_500
                  MAX_RETRIES 1 (Process 0 [])
                  ltac:(vm_compute; lia)
                  ltac:(intros i Hi; exists []; destruct i;
                         [reflexivity|exfalso; lia]))
           (Response 500 [])).
  - reflexivity.
  - cbn [status_code]. lia.
  - cbn [status_code]. lia.
Defined.

End ScholarMore.

(** ** More on the vector store *)

Module StoreMore.

Import Ingest Store StoreFacts.

Section Writes.

Context {vec : Type}.
Implicit Types (c : gmap str (entry vec)) (ids : list str).

(** An id outside the written ones keeps what it had. *)
Lemma collection_write_frame ids :
  forall c documents (embeddings : list vec) metadatas i,
    i ∉ ids ->
    collection_write vec c ids documents embeddings metadatas !! i = c !! i.
Proof.
  induction ids as [|j ids IH]; intros c documents embeddings metadatas i Hi.
  - reflexivity.
  - apply not_elem_of_cons in Hi as [Hne Hi].
    destruct documents as [|d ds], embeddings as [|e es],
      metadatas as [|m ms]; try reflexivity.
    cbn [collection_write]. rewrite IH by exact Hi.
    now apply lookup_insert_ne.
Qed.

(** A written id holds the tuple of one of its positions. *)
Lemma collection_write_lookup ids :
  forall c documents (embeddings : list vec) metadatas i,
    length ids = length documents ->
    length ids = length embeddings ->
    length ids = length metadatas ->
    i ∈ ids ->
    exists n d e m,
      ids !! n = Some i /\ documents !! n = Some d
      /\ embeddings !! n = Some e /\ metadatas !! n = Some m
      /\ collection_write vec c ids documents embeddings metadatas !! i
         = Some (Entry d e m).
Proof.
  induction ids as [|j ids IH];
    intros c [|d ds] [|e es] [|m ms] i Hd He Hm Hi; try discriminate.
  - inversion Hi.
  - cbn [collection_write]. destruct (decide (i ∈ ids)) as [Hin|Hnin].
    + destruct (IH (<[j:=Entry d e m]> c) ds es ms i) as
        (n & d' & e' & m' & H1 & H2 & H3 & H4 & H5);
        try (simpl in *; lia); [exact Hin|].
      exists (S n), d', e', m'. now repeat split.
    + apply elem_of_cons in Hi as [-> | Hi]; [|contradiction].
      exists 0%nat, d, e, m. repeat split.
      rewrite collection_write_frame by exact Hnin.
      apply lookup_insert_eq.
Qed.

Variable embed : list str -> result (list vec).

(** What succeeded: the embedding gave one vector per record. *)
Lemma upsert_chunks_inv c chunks c' :
  chunks <> [] ->
  upsert_chunks embed c chunks = Ok c' ->
  exists embeddings,
    embed (map text chunks) = Ok embeddings
    /\ length embeddings = length chunks
    /\ c' = collection_write vec c (map id chunks) (map text chunks)
              embeddings (map metadata chunks).
Proof.
  intros Hne. unfold upsert_chunks.
  apply ChunkFacts.truthy_true in Hne. rewrite Hne. cbn [negb].
  destruct (embed _) as [embeddings|e]; [|discriminate].
  unfold mbind, result_bind, collection_upsert.
  case_bool_decide as Hlen; [|discriminate].
  intros [= <-]. exists embeddings. split; [reflexivity|].
  destruct Hlen as (_ & He & _). rewrite length_map in He. now split.
Qed.

Lemma upsert_chunks_frame c chunks c' i :
  upsert_chunks embed c chunks = Ok c' ->
  i ∉ map id chunks -> c' !! i = c !! i.
Proof.
  intros Hup Hi. destruct chunks as [|r0 chunks].
  { now injection Hup as <-. }
  apply upsert_chunks_inv in Hup as (embeddings & _ & _ & ->);
    [|discriminate].
  now apply collection_write_frame.
Qed.

Lemma upsert_chunks_holds c chunks c' i :
  upsert_chunks embed c chunks = Ok c' ->
  i ∈ map id chunks ->
  exists n r embeddings e,
    chunks !! n = Some r /\ id r = i
    /\ embed (map text chunks) = Ok embeddings
    /\ embeddings !! n = Some e
    /\ c' !! i = Some (Entry (text r) e (metadata r)).
Proof.
  intros Hup Hi. destruct chunks as [|r0 chunks]; [inversion Hi|].
  apply upsert_chunks_inv in Hup as (embeddings & Hemb & Hlen & ->);
    [|discriminate].
  generalize dependent (r0 :: chunks). clear r0 chunks.
  intros chunks Hemb Hlen Hi.
  destruct (collection_write_lookup (map id chunks) c (map text chunks)
              embeddings (map metadata chunks) i)
    as (n & d & e & m & H1 & H2 & H3 & H4 & H5);
    rewrite ?length_map; try lia; [exact Hi|].
  apply list_lookup_fmap_Some_1 in H1 as (r & Hir & Hr).
  apply list_lookup_fmap_Some_1 in H2 as (r2 & -> & Hr2).
  apply list_lookup_fmap_Some_1 in H4 as (r4 & -> & Hr4).
  assert (r2 = r) as -> by congruence.
  assert (r4 = r) as -> by congruence.
  exists n, r, embeddings, e. now repeat split.
Qed.

(** X: after a successful [upsert_chunks], an id that is not in the batch
    holds what it held, and an id of the batch holds the text and the
    metadata of a record of the batch with that id, with the vector the
    embedding gave for that record. *)
Theorem upsert_chunks_lookup c chunks c' :
  upsert_chunks embed c chunks = Ok c' ->
  (forall i, i ∉ map id chunks -> c' !! i = c !! i)
  /\ (forall i, i ∈ map id chunks ->
        exists n r embeddings e,
          chunks !! n = Some r /\ id r = i
          /\ embed (map text chunks) = Ok embeddings
          /\ embeddings !! n = Some e
          /\ c' !! i = Some (Entry (text r) e (metadata r))).
Proof.
  intros Hup. split.
  - intros i Hi. now apply (upsert_chunks_frame c chunks).
  - intros i Hi. now apply (upsert_chunks_holds c chunks).
Qed.

(** X: writing records with pairwise distinct ids, none of them stored
    yet, adds as many documents as there are records. *)
Theorem upsert_chunks_fresh_count c chunks c' :
  upsert_chunks embed c chunks = Ok c' ->
  NoDup (map id chunks) ->
  (forall r, r ∈ chunks -> c !! id r = None) ->
  total_documents c' = total_documents c + len chunks.
Proof.
  intros Hup Hnd Hfresh. apply upsert_chunks_dom in Hup.
  unfold total_documents, collection_count, len.
  rewrite <- (size_dom c'), <- (size_dom c), Hup.
  rewrite size_union.
  - rewrite size_list_to_set by exact Hnd. rewrite length_map. lia.
  - intros i Hi Hc. apply elem_of_list_to_set in Hi.
    apply list_elem_of_fmap in Hi as (r & -> & Hr).
    apply elem_of_dom in Hc as [e He]. rewrite Hfresh in He by exact Hr.
    discriminate.
Qed.

End Writes.

Section Deletes.

Context {vec : Type}.
Implicit Types (c : gmap str (entry vec)).

Lemma delete_by_source_lookup c (source : str) i :
  delete_by_source c source !! i
  = match c !! i with
    | Some e =>
        if decide (entry_metadata e !! "source" = Some source)
        then None else Some e
    | None => None
    end.
Proof.
  unfold delete_by_source.
  destruct (collection_get_ids c source) as [|j ids] eqn:Hids; cbn [truthy].
  - destruct (c !! i) as [e|] eqn:Hc; [|reflexivity].
    case_decide as Hs; [|reflexivity].
    assert (Hin : i ∈ collection_get_ids c source)
      by (apply collection_get_ids_elem; eauto).
    rewrite Hids in Hin. inversion Hin.
  - rewrite <- Hids, collection_delete_lookup.
    case_decide as Hin.
    + apply collection_get_ids_elem in Hin as (e & -> & Hs).
      now rewrite decide_True.
    + destruct (c !! i) as [e|] eqn:Hc; [|reflexivity].
      case_decide as Hs; [|reflexivity].
      exfalso. apply Hin, collection_get_ids_elem. eauto.
Qed.

Lemma delete_by_source_filter c (source : str) :
  delete_by_source c source
  = filter (λ kv, ¬ (entry_metadata kv.2 !! "source" = Some source)) c.
Proof.
  apply map_eq. intros i. rewrite delete_by_source_lookup.
  apply option_eq. intros e. rewrite map_lookup_filter_Some. cbn [snd].
  destruct (c !! i) as [e'|]; [|naive_solver].
  case_decide; naive_solver.
Qed.

Lemma collection_get_ids_length c (source : str) :
  length (collection_get_ids c source)
  = size (filter (λ kv, entry_metadata kv.2 !! "source" = Some source) c).
Proof.
  unfold collection_get_ids. now rewrite length_fmap, length_map_to_list.
Qed.

(** X: [delete_by_source] lowers the count by the number of records of
    that source; afterwards the store has no record of the source, and a
    second call changes nothing. *)
Theorem delete_by_source_count_idempotent c (source : str) :
  total_documents (delete_by_source c source)
  = total_documents c - len (collection_get_ids c source)
  /\ collection_get_ids (delete_by_source c source) source = []
  /\ delete_by_source (delete_by_source c source) source
     = delete_by_source c source.
Proof.
  assert (Hnone : collection_get_ids (delete_by_source c source) source = []).
  { apply elem_of_nil_inv. intros i Hi.
    apply collection_get_ids_elem in Hi as (e & He & Hs).
    rewrite delete_by_source_lookup in He.
    destruct (c !! i) as [e'|]; [|discriminate].
    case_decide; [discriminate|]. injection He as ->. contradiction. }
  split; [|split; [exact Hnone|]].
  - unfold total_documents, collection_count, len.
    rewrite collection_get_ids_length, delete_by_source_filter.
    pose proof (map_filter_union_complement
                  (λ kv : str * entry vec,
                     entry_metadata kv.2 !! "source" = Some source) c) as Hu.
    pose proof (map_disjoint_filter_complement
                  (λ kv : str * entry vec,
                     entry_metadata kv.2 !! "source" = Some source) c) as Hd.
    apply map_size_disj_union in Hd. rewrite Hu in Hd. lia.
  - unfold delete_by_source at 1. now rewrite Hnone.
Qed.

Variable embed : list str -> result (list vec).

(** X: when the store holds no record of a source and none of the ids of
    a batch whose records all carry that source, writing the batch and
    then deleting the source gives the store back as it was. *)
Theorem upsert_then_delete_by_source c chunks c' (source : str) :
  upsert_chunks embed c chunks = Ok c' ->
  (forall r, r ∈ chunks ->
     metadata r !! "source" = Some source /\ c !! id r = None) ->
  (forall i e, c !! i = Some e ->
     entry_metadata e !! "source" <> Some source) ->
  delete_by_source c' source = c.
Proof.
  intros Hup Hbatch Hold.
  apply map_eq. intros i. rewrite delete_by_source_lookup.
  destruct (decide (i ∈ map id chunks)) as [Hi|Hi].
  - destruct (upsert_chunks_holds embed c chunks c' i Hup Hi)
      as (n & r & embeddings & e & Hr & <- & _ & _ & ->).
    apply list_elem_of_lookup_2 in Hr.
    destruct (Hbatch r Hr) as [Hs Hnone]. cbn [entry_metadata].
    now rewrite decide_True, Hnone.
  - rewrite (upsert_chunks_frame embed c chunks c' i Hup Hi).
    destruct (c !! i) as [e|] eqn:Hc; [|reflexivity].
    rewrite decide_False; [reflexivity|]. now apply (Hold i e).
Qed.

End Deletes.

Lemma other_records_in r :
  r ∈ other_records ->
  metadata r !! "source" = Some (py "other.pdf")
  /\ paper_stored !! id r = None.
Proof.
  intros Hr. apply list_elem_of_In in Hr.
  destruct Hr as [<- | [<- | [<- | []]]]; split; vm_compute; reflexivity.
Qed.

Lemma upsert_chunks_lookup_witness :
  other_stored !! py "paper_0_00000000"
  = (∅ : gmap str (entry Z)) !! py "paper_0_00000000".
Proof.
  apply (proj1 (upsert_chunks_lookup length_embed ∅ other_records
                  other_stored eq_refl)).
  apply (bool_decide_unpack _). vm_compute. exact I.
Defined.

Lemma upsert_chunks_fresh_count_witness :
  total_documents other_stored = total_documents (∅ : gmap str (entry Z)) + 3.
Proof.
  apply (upsert_chunks_fresh_count length_embed ∅ other_records other_stored
           eq_refl).
  - apply (bool_decide_unpack _). vm_compute. exact I.
  - intros r Hr. apply lookup_empty.
Defined.

Lemma upsert_then_delete_by_source_witness :
  delete_by_source eight_records (py "other.pdf") = paper_stored.
Proof.
  apply (upsert_then_delete_by_source length_embed paper_stored other_records
           eight_records (py "other.pdf")).
  - vm_compute. reflexivity.
  - apply other_records_in.
  - intros i e Hi Hs.
    assert (Hin : i ∈ collection_get_ids paper_stored (py "other.pdf"))
      by (apply collection_get_ids_elem; eauto).
    vm_compute in Hin. inversion Hin.
Defined.

End StoreMore.

(** ** More on ingestion *)

Module IngestMore.

Import Ingest IdentityFacts IngestFacts.

Lemma ingest_records_ids source doc_type chunks :
  forall idx r,
    r ∈ ingest_records source doc_type idx chunks ->
    exists j c, idx <= j /\ id r = generate_chunk_id source j c.
Proof.
  intros idx r Hr. apply list_elem_of_lookup in Hr as [n Hn].
  apply ingest_records_lookup in Hn as (c & _ & _ & Hid & _).
  exists (idx + Z.of_nat n), c. split; [lia | exact Hid].
Qed.

Lemma ingest_records_distinct source doc_type chunks :
  forall idx, NoDup (map id (ingest_records source doc_type idx chunks)).
Proof.
  induction chunks as [|c chunks IH]; intros idx; cbn [ingest_records map].
  - constructor.
  - constructor; [|apply IH].
    intros Hin. apply list_elem_of_fmap in Hin as (r & Hid & Hr).
    apply ingest_records_ids in Hr as (j & c' & Hj & Hr). cbn [id] in Hid.
    rewrite Hr in Hid. apply generate_chunk_id_index_inj in Hid. lia.
Qed.

Lemma ingest_records_texts source doc_type chunks :
  forall idx, map text (ingest_records source doc_type idx chunks) = chunks.
Proof.
  induction chunks as [|c chunks IH]; intros idx; cbn [ingest_records map];
    [reflexivity|].
  now rewrite IH.
Qed.

Lemma ingest_records_metadata source doc_type chunks :
  forall idx r,
    r ∈ ingest_records source doc_type idx chunks ->
    metadata r !! "source" = Some source
    /\ metadata r !! "doc_type" = Some doc_type
    /\ dom (metadata r)
       = ({["source"; "doc_type"; "chunk_index"; "chunk_id"]} : gset string).
Proof.
  induction chunks as [|c chunks IH]; intros idx r Hr;
    cbn [ingest_records] in Hr.
  - inversion Hr.
  - apply elem_of_cons in Hr as [-> | Hr]; [|now apply (IH (idx + 1))].
    cbn [metadata]. split; [by simplify_map_eq|].
    split; [by simplify_map_eq|].
    rewrite !dom_insert_L, dom_empty_L. set_solver.
Qed.

Section Loaders.

Variable load_pdf load_markdown load_html load_text : str -> result str.
Variable rglob : str -> list str.

Abbreviation load_document :=
  (load_document load_pdf load_markdown load_html load_text).
Abbreviation ingest_document :=
  (ingest_document load_pdf load_markdown load_html load_text).
Abbreviation ingest_directory :=
  (ingest_directory load_pdf load_markdown load_html load_text rglob).
Abbreviation ingest_file :=
  (ingest_file load_pdf load_markdown load_html load_text).
Abbreviation delivered :=
  (delivered load_pdf load_markdown load_html load_text).

(** X: [load_document] goes by the lowercased suffix alone: a suffix
    outside the table raises [ValueError] naming it, and so does
    [ingest_document]; a returned document type is the one the table
    gives for the suffix. *)
Theorem load_document_by_suffix (file_path : str) :
  (lower (Pathlib.suffix file_path) ∉ doc_type_table.*1 ->
   load_document file_path
   = Raise (ValueError (py "Unsupported file format: "
                        ++ lower (Pathlib.suffix file_path)))
   /\ forall chunk_size overlap_ratio,
        ingest_document file_path chunk_size overlap_ratio
        = Raise (ValueError (py "Unsupported file format: "
                             ++ lower (Pathlib.suffix file_path))))
  /\ (forall text doc_type,
        load_document file_path = Ok (text, doc_type) ->
        (lower (Pathlib.suffix file_path), doc_type) ∈ doc_type_table).
Proof using load_pdf load_markdown load_html load_text.
  clear rglob. unfold Ingest.ingest_document, Ingest.load_document.
  generalize (lower (Pathlib.suffix file_path)). intros sfx.
  assert (Htable : doc_type_table.*1
                   = [py ".pdf"; py ".md"; py ".markdown"; py ".html";
                      py ".txt"]) by reflexivity.
  split.
  - rewrite Htable. intros Hout.
    rewrite (bool_decide_eq_false_2 (sfx = py ".pdf"))
      by (intros ->; apply Hout; set_solver).
    rewrite (bool_decide_eq_false_2 (sfx ∈ [py ".md"; py ".markdown"]))
      by (intros E; apply Hout; set_solver).
    rewrite (bool_decide_eq_false_2 (sfx = py ".html"))
      by (intros ->; apply Hout; set_solver).
    rewrite (bool_decide_eq_false_2 (sfx = py ".txt"))
      by (intros ->; apply Hout; set_solver).
    split; [reflexivity|]. intros. reflexivity.
  - intros text doc_type. unfold doc_type_table.
    case_bool_decide as H1.
    { destruct (load_pdf _); [|discriminate]. intros [= <- <-]. subst sfx.
      set_solver. }
    case_bool_decide as H2.
    { destruct (load_markdown _); [|discriminate]. intros [= <- <-].
      apply elem_of_cons in H2 as [-> | H2]; [set_solver|].
      apply list_elem_of_singleton in H2 as ->. set_solver. }
    case_bool_decide as H3.
    { destruct (load_html _); [|discriminate]. intros [= <- <-]. subst sfx.
      set_solver. }
    case_bool_decide as H4.
    { destruct (load_text _); [|discriminate]. intros [= <- <-]. subst sfx.
      set_solver. }
    discriminate.
Qed.

(** X: the records [ingest_document] returns are the chunks of
    [chunk_text] on the loaded text, one record per chunk and in order;
    each carries the file name as source, the document type of the file
    and exactly the four metadata keys. *)
Theorem ingest_document_records
  (file_path : str) (chunk_size : Z) (overlap_ratio : Q)
  (records : list chunk) :
  ingest_document file_path chunk_size overlap_ratio = Ok records ->
  exists t doc_type,
    load_document file_path = Ok (t, doc_type)
    /\ map text records = chunk_text t chunk_size overlap_ratio
    /\ forall r, r ∈ records ->
         metadata r !! "source" = Some (Pathlib.name file_path)
         /\ metadata r !! "doc_type" = Some doc_type
         /\ dom (metadata r)
            = ({["source"; "doc_type"; "chunk_index"; "chunk_id"]}
               : gset string).
Proof.
  unfold Ingest.ingest_document. intros Hdoc.
  destruct (load_document file_path) as [[t doc_type]|e]; [|discriminate].
  cbn in Hdoc. injection Hdoc as <-. exists t, doc_type.
  split; [reflexivity|]. split; [apply ingest_records_texts|].
  intros r Hr. now apply ingest_records_metadata in Hr.
Qed.

(** X: the records of one document have pairwise distinct ids. *)
Theorem ingest_document_distinct_ids
  (file_path : str) (chunk_size : Z) (overlap_ratio : Q)
  (records : list chunk) :
  ingest_document file_path chunk_size overlap_ratio = Ok records ->
  NoDup (map id records).
Proof.
  unfold Ingest.ingest_document. intros Hdoc.
  destruct (load_document file_path) as [[t doc_type]|e]; [|discriminate].
  cbn in Hdoc. injection Hdoc as <-. apply ingest_records_distinct.
Qed.

Lemma ingested_total_app out1 out2 :
  ingested_total (out1 ++ out2) = ingested_total out1 + ingested_total out2.
Proof.
  induction out1 as [|[nm n|nm e] out1 IH]; cbn [app ingested_total]; lia.
Qed.

Lemma ingest_files_accounting chunk_size overlap_ratio extensions files :
  forall all_chunks out,
    len (fold_left (ingest_file chunk_size overlap_ratio extensions) files
           (all_chunks, out)).1
    - ingested_total
        (fold_left (ingest_file chunk_size overlap_ratio extensions) files
           (all_chunks, out)).2
    = len all_chunks - ingested_total out
    /\ length (fold_left (ingest_file chunk_size overlap_ratio extensions)
                 files (all_chunks, out)).2
       = (length out
          + length (List.filter
                      (fun f => bool_decide
                                  (lower (Pathlib.suffix f) ∈ extensions))
                      files))%nat.
Proof.
  induction files as [|f files IH]; intros all_chunks out;
    cbn [fold_left List.filter].
  - cbn [fst snd length]. split; lia.
  - unfold Ingest.ingest_file at 2 4 6. destruct (bool_decide _).
    + destruct (Ingest.ingest_document _ _ _ _ _ _ _) as [chunks|e];
        match goal with
        | |- context [fold_left _ files (?a, ?o)] =>
            destruct (IH a o) as [H1 H2]; rewrite H1, H2
        end;
        rewrite ingested_total_app, length_app; unfold len;
        cbn [ingested_total length]; rewrite ?length_app; unfold len;
        split; lia.
    + apply IH.
Qed.

(** X: the counts printed by [ingest_directory] add up to the number of
    records it returns; it prints one line for each listed path with an
    accepted extension and none for the others; and every record it
    returns names as source a listed file with an accepted extension. *)
Theorem ingest_directory_accounting
  (directory : str) (chunk_size : Z) (overlap_ratio : Q)
  (extensions : option (list str)) :
  len (ingest_directory directory chunk_size overlap_ratio extensions).1
  = ingested_total
      (ingest_directory directory chunk_size overlap_ratio extensions).2
  /\ length (ingest_directory directory chunk_size overlap_ratio extensions).2
     = length (List.filter
                 (fun f => bool_decide
                             (lower (Pathlib.suffix f)
                              ∈ default default_extensions extensions))
                 (rglob directory))
  /\ forall r,
       r ∈ (ingest_directory directory chunk_size overlap_ratio extensions).1 ->
       exists f, f ∈ rglob directory
         /\ lower (Pathlib.suffix f) ∈ default default_extensions extensions
         /\ metadata r !! "source" = Some (Pathlib.name (Pathlib.to_str f)).
Proof.
  unfold Ingest.ingest_directory.
  replace (match extensions with Some l => l | None => default_extensions end)
    with (default default_extensions extensions) by (now destruct extensions).
  set (accepted := default default_extensions extensions).
  destruct (ingest_files_accounting chunk_size overlap_ratio accepted
              (rglob directory) [] []) as [Hsum Hlines].
  destruct (ingest_files_fold load_pdf load_markdown load_html load_text
              chunk_size overlap_ratio accepted (rglob directory) [] [])
    as [Hall _].
  cbv zeta in Hall. split; [|split].
  - change (len (@nil chunk)) with 0 in Hsum.
    change (ingested_total []) with 0 in Hsum. lia.
  - rewrite Hlines. reflexivity.
  - intros r Hr. rewrite Hall in Hr. cbn [app] in Hr.
    apply list_elem_of_In, in_flat_map in Hr as (f & Hf & Hr).
    exists f. split; [now apply list_elem_of_In|].
    unfold Notions.delivered in Hr. case_bool_decide as Hacc; [|inversion Hr].
    split; [exact Hacc|].
    unfold Ingest.ingest_document in Hr.
    destruct (load_document (Pathlib.to_str f)) as [[t doc_type]|e];
      [|inversion Hr].
    cbn in Hr. apply list_elem_of_In in Hr.
    now apply ingest_records_metadata in Hr.
Qed.

Lemma ingest_records_same_stem source1 source2 doc_type1 doc_type2 chunks :
  Pathlib.stem source1 = Pathlib.stem source2 ->
  forall idx,
    map id (ingest_records source1 doc_type1 idx chunks)
    = map id (ingest_records source2 doc_type2 idx chunks).
Proof.
  intros Hstem. induction chunks as [|c chunks IH]; intros idx;
    cbn [ingest_records map id]; [reflexivity|].
  rewrite IH. unfold generate_chunk_id. now rewrite Hstem.
Qed.

Section Overwrite.

Context {vec : Type}.
Variable embed : list str -> result (list vec).

(** X: the id does not contain the extension or the directory of the
    file: two documents whose file names have the same stem and whose
    loaded text is the same get the same ids, so upserting the second
    after the first adds nothing to the count and leaves each id with the
    metadata of the second document. *)
Theorem same_stem_documents_collide
  (path1 path2 : str) (chunk_size : Z) (overlap_ratio : Q)
  (t doc_type1 doc_type2 : str) (records1 records2 : list chunk)
  (c c1 c2 : gmap str (Store.entry vec)) :
  Pathlib.stem (Pathlib.name path1) = Pathlib.stem (Pathlib.name path2) ->
  load_document path1 = Ok (t, doc_type1) ->
  load_document path2 = Ok (t, doc_type2) ->
  ingest_document path1 chunk_size overlap_ratio = Ok records1 ->
  ingest_document path2 chunk_size overlap_ratio = Ok records2 ->
  Store.upsert_chunks embed c records1 = Ok c1 ->
  Store.upsert_chunks embed c1 records2 = Ok c2 ->
  map id records1 = map id records2
  /\ Store.total_documents c2 = Store.total_documents c1
  /\ forall r, r ∈ records2 ->
       exists e, c2 !! id r = Some (Store.Entry (text r) e (metadata r)).
Proof.
  intros Hstem Hl1 Hl2 Hd1 Hd2 Hup1 Hup2.
  unfold Ingest.ingest_document in Hd1, Hd2. rewrite Hl1 in Hd1.
  rewrite Hl2 in Hd2. cbn in Hd1, Hd2.
  injection Hd1 as <-. injection Hd2 as <-.
  assert (Hids : map id (ingest_records (Pathlib.name path1) doc_type1 0
                           (chunk_text t chunk_size overlap_ratio))
                 = map id (ingest_records (Pathlib.name path2) doc_type2 0
                             (chunk_text t chunk_size overlap_ratio)))
    by now apply ingest_records_same_stem.
  split; [exact Hids|]. split.
  - apply (StoreFacts.upsert_chunks_present_count embed c1 _ c2 Hup2).
    intros r Hr. rewrite (StoreFacts.upsert_chunks_dom embed c _ c1 Hup1).
    apply elem_of_union_l, elem_of_list_to_set. rewrite Hids.
    apply list_elem_of_fmap. eauto.
  - intros r Hr.
    destruct (StoreMore.upsert_chunks_holds embed c1 _ c2 (id r) Hup2)
      as (n & r' & embeddings & e & Hn & Hid & _ & _ & He).
    { apply list_elem_of_fmap. eauto. }
    assert (r' = r) as ->.
    { apply list_elem_of_lookup in Hr as [m Hm].
      pose proof (ingest_records_distinct (Pathlib.name path2) doc_type2
                    (chunk_text t chunk_size overlap_ratio) 0) as Hnd.
      assert (n = m).
      { pose proof (list_lookup_fmap_Some_2 id _ _ _ Hn) as Hn'.
        pose proof (list_lookup_fmap_Some_2 id _ _ _ Hm) as Hm'.
        rewrite Hid in Hn'. exact (NoDup_lookup _ n m (id r) Hnd Hn' Hm'). }
      subst m. congruence. }
    eauto.
Qed.

End Overwrite.

End Loaders.

Lemma load_document_by_suffix_witness :
  Ingest.load_document broken_pdf plain_reader plain_reader plain_reader
    (py "table.CSV")
  = Raise (ValueError (py "Unsupported file format: .csv")).
Proof.
  apply (proj1 (proj1 (load_document_by_suffix broken_pdf plain_reader
                         plain_reader plain_reader (py "table.CSV"))
                  ltac:(apply (bool_decide_unpack _); vm_compute; exact I))).
Defined.

Lemma ingest_document_records_witness :
  exists t doc_type,
    Ingest.load_document broken_pdf plain_reader plain_reader plain_reader
      (py "docs/a.txt") = Ok (t, doc_type)
    /\ map text a_txt_records = chunk_text t 512 (1 # 10)
    /\ forall r, r ∈ a_txt_records ->
         metadata r !! "source" = Some (Pathlib.name (py "docs/a.txt"))
         /\ metadata r !! "doc_type" = Some doc_type
         /\ dom (metadata r)
            = ({["source"; "doc_type"; "chunk_index"; "chunk_id"]}
               : gset string).
Proof.
  apply (ingest_document_records broken_pdf plain_reader plain_reader
           plain_reader (py "docs/a.txt") 512 (1 # 10) a_txt_records).
  reflexivity.
Defined.

Lemma ingest_document_distinct_ids_witness :
  map text repeated_records
  = [py "same words"; py "same words"; py "same words"]
  /\ NoDup (map id repeated_records).
Proof.
  split; [vm_compute; reflexivity|].
  apply (ingest_document_distinct_ids broken_pdf repeating_reader
           plain_reader plain_reader (py "docs/r.md") 2 0 repeated_records).
  vm_compute. reflexivity.
Defined.

Lemma same_stem_documents_collide_witness :
  map id a_txt_records = map id a_md_records.
Proof.
  eapply (proj1 (same_stem_documents_collide broken_pdf plain_reader
                   plain_reader plain_reader length_embed
                   (py "docs/a.txt") (py "notes/a.md") 512 (1 # 10)
                   _ _ _ a_txt_records a_md_records ∅ _ _
                   eq_refl eq_refl eq_refl eq_refl eq_refl eq_refl eq_refl)).
Defined.

End IngestMore.

(** ** More on [chunk_text] *)

Module ChunkMore.

Import Ingest PyStrFacts ChunkFacts.

Lemma word_count_nonneg s : 0 <= word_count s.
Proof. unfold word_count, len. lia. Qed.

Lemma word_total_nonneg l : 0 <= word_total l.
Proof.
  induction l as [|p l IH]; cbn [word_total]; [lia|].
  pose proof (word_count_nonneg p). lia.
Qed.

Lemma word_total_app l1 l2 :
  word_total (l1 ++ l2) = word_total l1 + word_total l2.
Proof. induction l1 as [|p l1 IH]; cbn [app word_total]; lia. Qed.

(** Splitting at whitespace sees a space between two strings as a word
    boundary. *)
Lemma split_ws_from_space w s sp t :
  isspace sp = true ->
  split_ws_from w (s ++ sp :: t) = split_ws_from w s ++ split_ws t.
Proof.
  intros Hsp. revert w. induction s as [|c s IH]; intros w.
  - cbn [app split_ws_from]. rewrite Hsp. now destruct w.
  - cbn [app split_ws_from]. destruct (isspace c).
    + destruct w; rewrite IH; reflexivity.
    + apply IH.
Qed.

Lemma split_ws_join l :
  split_ws (join (py " ") l) = concat (map split_ws l).
Proof.
  induction l as [|p l IH]; [reflexivity|].
  destruct l as [|q l].
  - cbn [join map concat]. now rewrite app_nil_r.
  - rewrite join_cons. cbn [map concat]. unfold split_ws at 1.
    change (py " " ++ join (py " ") (q :: l))
      with (space :: join (py " ") (q :: l)).
    rewrite split_ws_from_space by reflexivity.
    now rewrite IH.
Qed.

(** The words of a chunk made of paragraphs are the words of the
    paragraphs. *)
Lemma word_count_join l : word_count (join (py " ") l) = word_total l.
Proof.
  unfold word_count. rewrite split_ws_join.
  induction l as [|p l IH]; [reflexivity|].
  cbn [map concat word_total]. unfold len in *.
  rewrite length_app. unfold word_count, len. lia.
Qed.

Lemma join_app sep (a b : list str) :
  a <> [] -> b <> [] ->
  join sep (a ++ b) = join sep a ++ sep ++ join sep b.
Proof.
  intros Ha Hb. induction a as [|x a IH]; [contradiction|].
  destruct a as [|y a].
  - destruct b; [contradiction|reflexivity].
  - change ((x :: y :: a) ++ b) with (x :: y :: (a ++ b)).
    rewrite !join_cons. change (y :: a ++ b) with ((y :: a) ++ b).
    rewrite IH by discriminate. now rewrite <- !app_assoc.
Qed.

(** A chunk joined from strings one of which is not blank is not blank. *)
Lemma join_not_blank sep l :
  l <> [] -> Forall (fun p => blank p = false) l ->
  blank (join sep l) = false.
Proof.
  intros Hl Hall. destruct (blank (join sep l)) eqn:Hb; [|reflexivity].
  apply blank_join_pieces in Hb. destruct l as [|p l]; [contradiction|].
  apply Forall_inv in Hb. apply Forall_inv in Hall. congruence.
Qed.

Lemma dotted_not_blank s : blank (s ++ py ".") = false.
Proof. rewrite blank_app. cbn. now rewrite andb_false_r. Qed.

Section Sized.

Variable chunk_size overlap_size : Z.

Abbreviation sentence_step := (sentence_step chunk_size overlap_size).
Abbreviation chunk_sentences := (chunk_sentences chunk_size overlap_size).
Abbreviation paragraph_step := (paragraph_step chunk_size overlap_size).
Abbreviation chunk_text_sized := (chunk_text_sized chunk_size overlap_size).

(** *** No chunk is blank *)

Lemma sentence_step_emits st s :
  exists extra,
    (sentence_step st s).1.1 = st.1.1 ++ extra
    /\ Forall (fun c => blank c = false) extra.
Proof.
  destruct (decide (strip s = [])) as [Hb|Hn].
  - rewrite (sentence_step_blank chunk_size overlap_size) by exact Hb.
    exists []. split; [now rewrite app_nil_r | constructor].
  - destruct st as [[chunks sc] sz].
    rewrite (sentence_step_nonblank chunk_size overlap_size) by exact Hn.
    destruct (_ && _); cbn [fst snd].
    + eexists. split; [reflexivity|].
      constructor; [apply dotted_not_blank | constructor].
    + exists []. split; [now rewrite app_nil_r | constructor].
Qed.

Lemma sentence_fold_emits l :
  forall st, exists extra,
    (fold_left sentence_step l st).1.1 = st.1.1 ++ extra
    /\ Forall (fun c => blank c = false) extra.
Proof.
  induction l as [|s l IH]; intros st; cbn [fold_left].
  - exists []. split; [now rewrite app_nil_r | constructor].
  - destruct (IH (sentence_step st s)) as (e1 & H1 & F1).
    destruct (sentence_step_emits st s) as (e2 & H2 & F2).
    exists (e2 ++ e1). rewrite H1, H2, app_assoc. split; [reflexivity|].
    now apply Forall_app.
Qed.

Lemma chunk_sentences_emits chunks para :
  exists extra,
    chunk_sentences chunks para = chunks ++ extra
    /\ Forall (fun c => blank c = false) extra.
Proof.
  unfold Ingest.chunk_sentences.
  destruct (sentence_fold_emits (split_on (py ". ") para) (chunks, [], 0))
    as (extra & H & F).
  destruct (fold_left _ _ _) as [[chunks1 sc] sz]. cbn [fst snd] in H.
  subst chunks1. destruct (truthy sc).
  - exists (extra ++ [join (py ". ") sc ++ py "."]).
    rewrite app_assoc. split; [reflexivity|]. apply Forall_app. split; [exact F|].
    constructor; [apply dotted_not_blank | constructor].
  - eauto.
Qed.

Lemma paragraph_step_not_blank st p :
  Forall (fun c => blank c = false) st.1.1 ->
  Forall (fun c => blank c = false) st.1.2 ->
  Forall (fun c => blank c = false) (paragraph_step st p).1.1
  /\ Forall (fun c => blank c = false) (paragraph_step st p).1.2.
Proof.
  destruct st as [[chunks cur] sz]. cbn [fst snd]. intros Hc Hcur.
  destruct (decide (strip p = [])) as [Hb|Hn].
  { rewrite (paragraph_step_blank chunk_size overlap_size) by exact Hb.
    now split. }
  pose proof (strip_not_blank p Hn) as Hp.
  destruct (Z_gt_le_dec (len (split_ws (strip p))) chunk_size) as [Hl|Hs].
  - rewrite (paragraph_step_large chunk_size overlap_size) by assumption.
    destruct (truthy cur) eqn:Ht; cbn [fst snd].
    + destruct (chunk_sentences_emits (chunks ++ [join (py " ") cur])
                  (strip p)) as (extra & -> & F).
      split; [|constructor]. apply Forall_app. split; [|exact F].
      apply Forall_app. split; [exact Hc|].
      constructor; [|constructor].
      apply join_not_blank; [now apply truthy_true | exact Hcur].
    + destruct (chunk_sentences_emits chunks (strip p)) as (extra & -> & F).
      split; [|exact Hcur]. now apply Forall_app.
  - unfold Ingest.paragraph_step.
    destruct (strip p) as [|c t] eqn:E; [contradiction|]. cbn [truthy negb].
    replace (len (split_ws (c :: t)) >? chunk_size) with false
      by (symmetry; rewrite Z.gtb_ltb; apply Z.ltb_ge; lia).
    destruct ((sz + len (split_ws (c :: t)) >? chunk_size) && truthy cur)
      eqn:Hflush; cbn [fst snd].
    + apply andb_prop in Hflush as [_ Ht]. split.
      * apply Forall_app. split; [exact Hc|]. constructor; [|constructor].
        apply join_not_blank; [now apply truthy_true | exact Hcur].
      * apply Forall_app. split; [|now repeat constructor].
        destruct (overlap_size >? 0); [|constructor].
        unfold last_n. now apply Forall_drop.
    + split; [exact Hc|]. apply Forall_app. split; [exact Hcur|].
      now repeat constructor.
Qed.

Lemma paragraph_fold_not_blank l :
  forall st,
    Forall (fun c => blank c = false) st.1.1 ->
    Forall (fun c => blank c = false) st.1.2 ->
    Forall (fun c => blank c = false) (fold_left paragraph_step l st).1.1
    /\ Forall (fun c => blank c = false) (fold_left paragraph_step l st).1.2.
Proof.
  induction l as [|p l IH]; intros st Hc Hcur; cbn [fold_left].
  - now split.
  - destruct (paragraph_step_not_blank st p Hc Hcur) as [H1 H2].
    now apply IH.
Qed.

Lemma chunk_text_sized_not_blank text :
  Forall (fun c => blank c = false) (chunk_text_sized text).
Proof.
  unfold Ingest.chunk_text_sized.
  destruct (paragraph_fold_not_blank (split_on [nl; nl] text) ([], [], 0))
    as [Hc Hcur]; try constructor.
  destruct (fold_left _ _ _) as [[chunks cur] sz]. cbn [fst snd] in *.
  destruct (truthy cur) eqn:Ht; [|exact Hc].
  apply Forall_app. split; [exact Hc|]. constructor; [|constructor].
  apply join_not_blank; [now apply truthy_true | exact Hcur].
Qed.

(** *** Paragraphs that fit into one chunk *)

Lemma paragraph_step_keeps chunks cur sz p :
  strip p <> [] -> word_count (strip p) <= chunk_size ->
  sz + word_count (strip p) <= chunk_size \/ cur = [] ->
  paragraph_step (chunks, cur, sz) p
  = (chunks, cur ++ [strip p], sz + word_count (strip p)).
Proof.
  intros Hn Hsmall Hfit. unfold Ingest.paragraph_step, word_count in *.
  destruct (strip p) as [|c t] eqn:E; [contradiction|]. cbn [truthy negb].
  replace (len (split_ws (c :: t)) >? chunk_size) with false
    by (symmetry; rewrite Z.gtb_ltb; apply Z.ltb_ge; lia).
  replace ((sz + len (split_ws (c :: t)) >? chunk_size) && truthy cur)
    with false; [reflexivity|].
  symmetry. apply andb_false_iff. destruct Hfit as [Hfit | ->].
  - left. rewrite Z.gtb_ltb. apply Z.ltb_ge. lia.
  - now right.
Qed.

Lemma paragraph_fold_fits raw :
  forall cur,
    word_total cur + word_total (List.filter truthy (map strip raw))
    <= chunk_size ->
    fold_left paragraph_step raw ([], cur, word_total cur)
    = ([], cur ++ List.filter truthy (map strip raw),
       word_total (cur ++ List.filter truthy (map strip raw))).
Proof.
  induction raw as [|p raw IH]; intros cur Hfit;
    cbn [fold_left map List.filter].
  - now rewrite app_nil_r.
  - destruct (decide (strip p = [])) as [Hb|Hn].
    + rewrite (paragraph_step_blank chunk_size overlap_size) by exact Hb.
      rewrite Hb. cbn [truthy]. apply IH.
      cbn [map List.filter] in Hfit. rewrite Hb in Hfit. exact Hfit.
    + cbn [map List.filter] in Hfit.
      apply truthy_true in Hn as Ht. rewrite Ht in *.
      cbn [word_total] in Hfit.
      pose proof (word_total_nonneg (List.filter truthy (map strip raw))).
      pose proof (word_total_nonneg cur).
      pose proof (word_count_nonneg (strip p)).
      rewrite paragraph_step_keeps by (try assumption; try left; lia).
      replace (word_total cur + word_count (strip p))
        with (word_total (cur ++ [strip p]))
        by (rewrite word_total_app; cbn [word_total]; lia).
      rewrite IH.
      * now rewrite <- app_assoc.
      * rewrite word_total_app. cbn [word_total]. lia.
Qed.

(** *** Without overlap the chunks partition the paragraphs *)

Lemma paragraph_fold_partition raw :
  overlap_size <= 0 ->
  (forall p, In p raw -> strip p <> [] -> word_count (strip p) <= chunk_size) ->
  forall groups cur sz,
    Forall (fun g => g <> [] /\ word_total g <= chunk_size) groups ->
    sz = word_total cur ->
    (cur <> [] -> word_total cur <= chunk_size) ->
    exists groups' cur' sz',
      fold_left paragraph_step raw (map (join (py " ")) groups, cur, sz)
      = (map (join (py " ")) groups', cur', sz')
      /\ Forall (fun g => g <> [] /\ word_total g <= chunk_size) groups'
      /\ sz' = word_total cur'
      /\ (cur' <> [] -> word_total cur' <= chunk_size)
      /\ concat groups' ++ cur'
         = concat groups ++ cur ++ List.filter truthy (map strip raw).
Proof.
  intros Hov. induction raw as [|p raw IH];
    intros Hsmall groups cur sz Hg Hsz Hcur; cbn [fold_left map List.filter].
  - exists groups, cur, sz. now rewrite app_nil_r.
  - assert (Hrest : forall q, In q raw -> strip q <> [] ->
                      word_count (strip q) <= chunk_size)
      by (intros q Hq; apply Hsmall; now right).
    destruct (decide (strip p = [])) as [Hb|Hn].
    { rewrite (paragraph_step_blank chunk_size overlap_size) by exact Hb.
      rewrite Hb. cbn [truthy]. now apply IH. }
    apply truthy_true in Hn as Ht. rewrite Ht.
    assert (Hp : word_count (strip p) <= chunk_size)
      by (apply Hsmall; [now left | exact Hn]).
    pose proof (word_count_nonneg (strip p)) as Hp0.
    destruct (decide (sz + word_count (strip p) <= chunk_size \/ cur = []))
      as [Hfit | Hflush].
    + rewrite paragraph_step_keeps by assumption.
      destruct (IH Hrest groups (cur ++ [strip p])
                  (sz + word_count (strip p)) Hg)
        as (groups' & cur' & sz' & Hfold & Hg' & Hsz' & Hcur' & Hcat).
      * rewrite word_total_app. cbn [word_total]. lia.
      * intros _. rewrite word_total_app. cbn [word_total].
        destruct Hfit as [Hfit | ->]; [lia|]. cbn [word_total] in *. lia.
      * exists groups', cur', sz'. repeat split; try assumption.
        rewrite Hcat, <- !app_assoc. reflexivity.
    + assert (Hne : cur <> []) by tauto.
      assert (Hover : sz + len (split_ws (strip p)) > chunk_size)
        by (unfold word_count in *; lia).
      rewrite (paragraph_step_flush chunk_size overlap_size)
        by (unfold word_count in *; assumption).
      replace (overlap_size >? 0) with false
        by (symmetry; rewrite Z.gtb_ltb; apply Z.ltb_ge; lia).
      cbv zeta. cbn [app].
      change (map (join (py " ")) groups ++ [join (py " ") cur])
        with (map (join (py " ")) groups ++ map (join (py " ")) [cur]).
      rewrite <- map_app.
      destruct (IH Hrest (groups ++ [cur]) [strip p]
                  (len (@nil str) + len (split_ws (strip p))))
        as (groups' & cur' & sz' & Hfold & Hg' & Hsz' & Hcur' & Hcat).
      * apply Forall_app. split; [exact Hg|]. constructor; [|constructor].
        split; [exact Hne | now apply Hcur].
      * cbn [word_total]. unfold word_count, len. cbn [length]. lia.
      * intros _. cbn [word_total]. lia.
      * exists groups', cur', sz'. repeat split; try assumption.
        rewrite Hcat, concat_app. cbn [concat].
        rewrite <- !app_assoc. reflexivity.
Qed.

(** *** Short paragraphs are emitted whole *)

Lemma paragraph_step_kept done st p :
  paragraphs_kept chunk_size done st ->
  paragraphs_kept chunk_size (done ++ [p]) (paragraph_step st p).
Proof.
  destruct st as [[chunks cur] sz]. unfold paragraphs_kept. cbn [fst snd].
  intros Hkept.
  assert (Hold : forall chunks' q,
             In q done -> strip q <> [] ->
             word_count (strip q) <= chunk_size ->
             (forall x, In x chunks -> In x chunks') ->
             (cur <> [] -> In (join (py " ") cur) chunks') ->
             exists b a, In (join (py " ") (b ++ strip q :: a)) chunks').
  { intros chunks' q Hq Hn Hs Hmono Hem.
    destruct (Hkept q Hq Hn Hs) as [(b & a & Hin) | (b & a & Hc)].
    - exists b, a. now apply Hmono.
    - exists b, a. rewrite <- Hc. apply Hem. rewrite Hc. now destruct b. }
  destruct (decide (strip p = [])) as [Hb|Hn].
  { rewrite (paragraph_step_blank chunk_size overlap_size) by exact Hb.
    cbn [fst snd]. intros q Hq Hqn Hqs.
    apply in_app_or in Hq as [Hq | [<- | []]]; [|contradiction].
    now apply Hkept. }
  destruct (Z_gt_le_dec (len (split_ws (strip p))) chunk_size) as [Hl|Hs].
  - rewrite (paragraph_step_large chunk_size overlap_size) by assumption.
    intros q Hq Hqn Hqs.
    apply in_app_or in Hq as [Hq | [<- | []]];
      [|unfold word_count in Hqs; lia].
    left. destruct (truthy cur) eqn:Ht; cbn [fst snd].
    + destruct (chunk_sentences_extends chunk_size overlap_size
                  (chunks ++ [join (py " ") cur]) (strip p)) as [extra ->].
      apply (Hold _ q Hq Hqn Hqs).
      * intros x Hx. apply in_or_app. left. apply in_or_app. now left.
      * intros _. apply in_or_app. left. apply in_or_app. right. now left.
    + destruct (chunk_sentences_extends chunk_size overlap_size chunks
                  (strip p)) as [extra ->].
      apply (Hold _ q Hq Hqn Hqs).
      * intros x Hx. apply in_or_app. now left.
      * intros Hne. apply truthy_true in Hne. congruence.
  - unfold Ingest.paragraph_step.
    destruct (strip p) as [|c t] eqn:E; [contradiction|]. cbn [truthy negb].
    replace (len (split_ws (c :: t)) >? chunk_size) with false
      by (symmetry; rewrite Z.gtb_ltb; apply Z.ltb_ge; lia).
    destruct ((sz + len (split_ws (c :: t)) >? chunk_size) && truthy cur)
      eqn:Hflush; cbn [fst snd]; intros q Hq Hqn Hqs;
      apply in_app_or in Hq as [Hq | [<- | []]].
    + left. apply (Hold _ q Hq Hqn Hqs).
      * intros x Hx. apply in_or_app. now left.
      * intros _. apply in_or_app. right. now left.
    + right. rewrite E. eexists _, []. reflexivity.
    + destruct (Hkept q Hq Hqn Hqs) as [Hin | (b & a & ->)]; [now left|].
      right. exists b, (a ++ [c :: t]). now rewrite <- app_assoc.
    + right. rewrite E. exists cur, []. reflexivity.
Qed.

Lemma paragraph_fold_kept l :
  forall done st,
    paragraphs_kept chunk_size done st ->
    paragraphs_kept chunk_size (done ++ l) (fold_left paragraph_step l st).
Proof.
  induction l as [|p l IH]; intros done st H; cbn [fold_left].
  - now rewrite app_nil_r.
  - replace (done ++ p :: l) with ((done ++ [p]) ++ l)
      by (now rewrite <- app_assoc).
    apply IH. now apply paragraph_step_kept.
Qed.

Lemma chunk_text_sized_fits text :
  word_total (paragraphs_of text) <= chunk_size ->
  chunk_text_sized text
  = match paragraphs_of text with
    | [] => []
    | _ :: _ => [join (py " ") (paragraphs_of text)]
    end.
Proof.
  intros Hfit. unfold Ingest.chunk_text_sized.
  change (fold_left paragraph_step (split_on [nl; nl] text) ([], [], 0))
    with (fold_left paragraph_step (split_on [nl; nl] text)
            ([], [], word_total [])).
  rewrite paragraph_fold_fits by exact Hfit.
  cbn [app]. fold (paragraphs_of text). now destruct (paragraphs_of text).
Qed.

Lemma chunk_text_sized_partition text :
  overlap_size <= 0 ->
  (forall p, In p (paragraphs_of text) -> word_count p <= chunk_size) ->
  exists groups,
    chunk_text_sized text = map (join (py " ")) groups
    /\ concat groups = paragraphs_of text
    /\ forall g, In g groups ->
         g <> [] /\ word_count (join (py " ") g) <= chunk_size.
Proof.
  intros Hov Hsmall. unfold Ingest.chunk_text_sized.
  destruct (paragraph_fold_partition (split_on [nl; nl] text) Hov)
    with (groups := @nil (list str)) (cur := @nil str) (sz := 0)
    as (groups & cur & sz & Hfold & Hg & Hsz & Hcur & Hcat).
  - intros p Hp Hn. apply Hsmall. unfold paragraphs_of.
    apply filter_In. split; [now apply in_map | now apply truthy_true].
  - constructor.
  - reflexivity.
  - intros H. contradiction.
  - cbn [map] in Hfold. rewrite Hfold. cbn [concat app] in Hcat.
    fold (paragraphs_of text) in Hcat.
    rewrite List.Forall_forall in Hg.
    destruct cur as [|q cur]; cbn [truthy].
    + exists groups. rewrite app_nil_r in Hcat.
      split; [reflexivity|]. split; [exact Hcat|].
      intros g Hin. rewrite word_count_join. now apply Hg.
    + exists (groups ++ [q :: cur]). rewrite map_app. cbn [map].
      split; [reflexivity|]. split.
      * rewrite concat_app. cbn [concat]. now rewrite app_nil_r.
      * intros g Hin. rewrite word_count_join.
        apply in_app_or in Hin as [Hin | [<- | []]]; [now apply Hg|].
        split; [discriminate|]. now apply Hcur.
Qed.

Lemma chunk_text_sized_paragraph_whole text p0 :
  In p0 (split_on [nl; nl] text) ->
  strip p0 <> [] ->
  word_count (strip p0) <= chunk_size ->
  exists before after,
    In (join (py " ") (before ++ strip p0 :: after)) (chunk_text_sized text).
Proof.
  intros Hin Hn Hs. unfold Ingest.chunk_text_sized.
  pose proof (paragraph_fold_kept (split_on [nl; nl] text) [] ([], [], 0))
    as Hk.
  destruct (fold_left _ _ _) as [[chunks cur] sz].
  unfold paragraphs_kept in Hk. cbn [app fst snd] in Hk.
  destruct (Hk ltac:(intros ? []) p0 Hin Hn Hs)
    as [(b & a & Hc) | (b & a & ->)].
  - exists b, a. destruct (truthy cur); [apply in_or_app; now left | exact Hc].
  - exists b, a.
    replace (truthy (b ++ strip p0 :: a)) with true by (now destruct b).
    apply in_or_app. right. now left.
Qed.

End Sized.

(** X: no chunk returned by [chunk_text] is empty or blank: each one has a
    character that is not whitespace. *)
Theorem chunk_text_chunks_not_blank
  (text : str) (chunk_size : Z) (overlap_ratio : Q) (c : str) :
  In c (chunk_text text chunk_size overlap_ratio) ->
  c <> [] /\ blank c = false.
Proof.
  intros Hc. unfold chunk_text in Hc.
  pose proof (chunk_text_sized_not_blank chunk_size
                (int_of_Q (inject_Z chunk_size * overlap_ratio)) text) as Hall.
  rewrite List.Forall_forall in Hall. specialize (Hall c Hc).
  split; [|exact Hall]. intros ->. discriminate Hall.
Qed.

Lemma chunk_text_chunks_not_blank_witness :
  py "a b c d e f" <> [] /\ blank (py "a b c d e f") = false.
Proof.
  apply (chunk_text_chunks_not_blank two_paragraphs 10 (1 # 10)).
  vm_compute. left. reflexivity.
Defined.

(** X: when the words of all paragraphs together are at most
    [chunk_size], [chunk_text] returns one chunk, the paragraphs joined by
    single spaces (and nothing for a text without paragraphs), whatever
    the overlap ratio. *)
Theorem chunk_text_single_chunk
  (text : str) (chunk_size : Z) (overlap_ratio : Q) :
  word_total (paragraphs_of text) <= chunk_size ->
  chunk_text text chunk_size overlap_ratio
  = match paragraphs_of text with
    | [] => []
    | _ :: _ => [join (py " ") (paragraphs_of text)]
    end.
Proof. intros Hfit. unfold chunk_text. now apply chunk_text_sized_fits. Qed.

Lemma chunk_text_single_chunk_witness :
  chunk_text (py "A short para." ++ [nl; nl] ++ py "Another short para.")
    100 (1 # 10)
  = [py "A short para. Another short para."].
Proof.
  apply (chunk_text_single_chunk
           (py "A short para." ++ [nl; nl] ++ py "Another short para.")
           100 (1 # 10)).
  vm_compute. discriminate.
Defined.

(** X: when the overlap computed from the ratio is zero words (or less)
    and no paragraph has more than [chunk_size] words, the chunks are a
    partition of the paragraphs: consecutive non-empty groups, in order,
    nothing lost and nothing repeated, each chunk its group joined by
    single spaces and of at most [chunk_size] words. *)
Theorem chunk_text_zero_overlap_partition
  (text : str) (chunk_size overlap_size : Z) :
  overlap_size <= 0 ->
  (forall p, In p (paragraphs_of text) -> word_count p <= chunk_size) ->
  exists groups,
    chunk_text_sized chunk_size overlap_size text
    = map (join (py " ")) groups
    /\ concat groups = paragraphs_of text
    /\ forall g, In g groups ->
         g <> [] /\ word_count (join (py " ") g) <= chunk_size.
Proof.
  intros Hov Hsmall. now apply chunk_text_sized_partition.
Qed.

Lemma chunk_text_zero_overlap_partition_witness :
  exists groups,
    chunk_text_sized 10 0 two_paragraphs = map (join (py " ")) groups
    /\ concat groups = paragraphs_of two_paragraphs
    /\ forall g, In g groups ->
         g <> [] /\ word_count (join (py " ") g) <= 10.
Proof.
  apply (chunk_text_zero_overlap_partition two_paragraphs 10 0).
  - lia.
  - intros p Hp. vm_compute in Hp.
    destruct Hp as [<- | [<- | []]]; vm_compute; discriminate.
Defined.

(** X: on the paragraph path nothing is dropped: every paragraph that is
    not blank and has at most [chunk_size] words is, stripped and whole,
    an element of the group of paragraphs that some chunk joins with
    single spaces. *)
Theorem chunk_text_paragraph_whole
  (text : str) (chunk_size : Z) (overlap_ratio : Q) (para0 : str) :
  In para0 (split_on [nl; nl] text) ->
  strip para0 <> [] ->
  word_count (strip para0) <= chunk_size ->
  exists before after,
    In (join (py " ") (before ++ strip para0 :: after))
       (chunk_text text chunk_size overlap_ratio).
Proof.
  intros Hin Hn Hs. unfold chunk_text.
  now apply chunk_text_sized_paragraph_whole.
Qed.

Lemma chunk_text_paragraph_whole_witness :
  exists before after,
    In (join (py " ") (before ++ py "g h i j k l" :: after))
       (chunk_text two_paragraphs 10 (1 # 10)).
Proof.
  apply (chunk_text_paragraph_whole two_paragraphs 10 (1 # 10)
           (py "g h i j k l")).
  - vm_compute. right. left. reflexivity.
  - vm_compute. discriminate.
  - vm_compute. discriminate.
Defined.

End ChunkMore.

(** ** Retrieval formatting and the prompt *)

Module RetrieveFacts.

Import Retrieve Generate.

Section Formatting.

Context {dist : Type}.
Implicit Types (r : RetrievalResult dist).

Lemma format_blocks_length include_sources docs :
  forall i metas,
    length (format_blocks include_sources i docs metas)
    = Nat.min (length docs) (length metas).
Proof.
  induction docs as [|d docs IH]; intros i [|m metas]; cbn; try reflexivity.
  now rewrite IH.
Qed.

Lemma format_blocks_lookup docs :
  forall i metas (k : nat) d m,
    docs !! k = Some d -> metas !! k = Some m ->
    format_blocks true i docs metas !! k
    = Some (py "[" ++ str_of_int (i + Z.of_nat k) ++ py "] (Source: "
            ++ default (py "unknown") (m !! "source") ++ py ")"
            ++ [nl] ++ d).
Proof.
  induction docs as [|d0 docs IH]; intros i [|m0 metas] k d m Hd Hm;
    try discriminate.
  destruct k as [|k].
  - injection Hd as <-. injection Hm as <-. cbn [format_blocks].
    now replace (i + Z.of_nat 0) with i by lia.
  - cbn [format_blocks].
    refine (eq_trans (IH (i + 1) metas k d m Hd Hm) _).
    now replace (i + 1 + Z.of_nat k) with (i + Z.of_nat (S k)) by lia.
Qed.

Lemma join_head_not_nil sep b rest : b <> [] -> join sep (b :: rest) <> [].
Proof.
  intros Hb. destruct rest as [|b' rest]; [exact Hb|].
  rewrite PyStrFacts.join_cons. now destruct b.
Qed.

Lemma format_context_nil r :
  format_context r true = []
  <-> documents r = [] \/ metadatas r = [].
Proof.
  unfold format_context. destruct (documents r) as [|d docs].
  - cbn. tauto.
  - cbn [truthy negb]. destruct (metadatas r) as [|m metas].
    + cbn. tauto.
    + cbn [format_blocks]. split.
      * intros H. apply join_head_not_nil in H; [contradiction|discriminate].
      * intros [H|H]; discriminate.
Qed.

(** X: [format_context] with sources numbers its blocks from 1 in rank
    order: block [k] is ["[k+1] (Source: s)"], a newline and document
    [k], with [s] the ['source'] of metadata [k] or ["unknown"]; there are
    as many blocks as (document, metadata) pairs, so documents beyond the
    metadatas are left out; the blocks are joined by the delimiter. *)
Theorem format_context_numbered r :
  exists blocks,
    format_context r true = join ([nl; nl] ++ py "---" ++ [nl; nl]) blocks
    /\ length blocks
       = Nat.min (length (documents r)) (length (metadatas r))
    /\ forall (k : nat) d m,
         documents r !! k = Some d -> metadatas r !! k = Some m ->
         blocks !! k
         = Some (py "[" ++ str_of_int (Z.of_nat k + 1) ++ py "] (Source: "
                 ++ default (py "unknown") (m !! "source") ++ py ")"
                 ++ [nl] ++ d).
Proof.
  exists (format_blocks true 1 (documents r) (metadatas r)).
  split; [|split].
  - unfold format_context. now destruct (documents r).
  - apply format_blocks_length.
  - intros k d m Hd Hm. rewrite (format_blocks_lookup _ 1 _ k d m Hd Hm).
    now replace (1 + Z.of_nat k) with (Z.of_nat k + 1) by lia.
Qed.

(** X: the context is the empty string exactly when there is no
    (document, metadata) pair, and exactly then [build_prompt] gives the
    prompt that tells the model no context was found.  Otherwise the prompt
    carries the context: the heading, the context, which opens with the
    first numbered block, the rule, the question and the request to cite
    the sources. *)
Theorem empty_context_prompt r (query : str) :
  (format_context r true = []
   <-> documents r = [] \/ metadatas r = [])
  /\ (build_prompt query (format_context r true) = no_context_prompt query
      <-> documents r = [] \/ metadatas r = [])
  /\ (forall d docs m metas,
         documents r = d :: docs -> metadatas r = m :: metas ->
         build_prompt query (format_context r true)
         = py "Context from knowledge base:" ++ [nl]
           ++ format_context r true ++ [nl; nl] ++ py "---" ++ [nl; nl]
           ++ py "Question: " ++ query ++ [nl; nl]
           ++ py "Please answer based on the context above. Cite sources using [1], [2], etc. when referencing specific information."
         /\ exists rest,
              format_context r true
              = py "[1] (Source: "
                ++ default (py "unknown") (m !! "source") ++ py ")"
                ++ [nl] ++ d ++ rest).
Proof.
  split; [apply format_context_nil|]. split.
  - rewrite <- format_context_nil. unfold build_prompt.
    destruct (format_context r true) as [|c ctx]; cbn [truthy negb].
    + tauto.
    + split; intros H; discriminate H.
  - intros d docs m metas Hd Hm.
    assert (Hctx : exists rest,
               format_context r true
               = py "[1] (Source: "
                 ++ default (py "unknown") (m !! "source") ++ py ")"
                 ++ [nl] ++ d ++ rest).
    { unfold format_context. rewrite Hd, Hm. cbn [truthy negb format_blocks].
      destruct (format_blocks _ _ docs metas) as [|b bs].
      - exists []. cbn [join]. now rewrite !app_nil_r.
      - rewrite PyStrFacts.join_cons. eexists.
        rewrite <- !app_assoc. reflexivity. }
    split; [|exact Hctx].
    destruct Hctx as [rest Hctx]. unfold build_prompt. rewrite Hctx.
    reflexivity.
Qed.

End Formatting.

Lemma empty_context_prompt_witness :
  build_prompt (py "Why overlap?") (format_context one_hit true)
  = py "Context from knowledge base:" ++ [nl]
    ++ py "[1] (Source: paper.pdf)" ++ [nl] ++ py "Chunks overlap."
    ++ [nl; nl] ++ py "---" ++ [nl; nl]
    ++ py "Question: Why overlap?" ++ [nl; nl]
    ++ py "Please answer based on the context above. Cite sources using [1], [2], etc. when referencing specific information.".
Proof.
  refine (eq_trans
            (proj1 (proj2 (proj2 (empty_context_prompt one_hit
                                    (py "Why overlap?")))
                      _ _ _ _ eq_refl eq_refl)) _).
  vm_compute. reflexivity.
Defined.

End RetrieveFacts.

(** ** Reddit posts *)

Module CommunityFacts.

Import Community PyStrFacts.

(** Cutting at a one-character separator cuts the two sides of an
    occurrence independently. *)
Lemma split_on_char c a b :
  split_on [c] (a ++ c :: b) = split_on [c] a ++ split_on [c] b.
Proof.
  unfold split_on. induction a as [|x a IH].
  - cbn [app split_from startswith length Nat.sub].
    now rewrite Ascii.eqb_refl.
  - cbn [app split_from startswith length Nat.sub].
    destruct (Ascii.eqb c x); cbn [andb].
    + now rewrite IH.
    + rewrite IH. pose proof (split_from_not_nil [c] a 0) as Hne.
      now destruct (split_from [c] 0 a).
Qed.

Lemma split_on_char_free c s :
  forallb (fun x => negb (Ascii.eqb c x)) s = true -> split_on [c] s = [s].
Proof.
  unfold split_on. induction s as [|x s IH]; intros H; [reflexivity|].
  cbn [forallb] in H. apply andb_prop in H as [Hx Hs].
  cbn [split_from startswith]. apply negb_true_iff in Hx. rewrite Hx.
  cbn [andb]. now rewrite IH.
Qed.

Lemma startswith_self p s : startswith p (p ++ s) = true.
Proof.
  induction p as [|a p IH]; [reflexivity|].
  cbn [app startswith]. now rewrite Ascii.eqb_refl, IH.
Qed.

Lemma contains_app sub a b : contains sub (a ++ sub ++ b) = true.
Proof.
  induction a as [|x a IH].
  - cbn [app]. destruct (sub ++ b) eqn:E; cbn [contains];
      rewrite <- E, startswith_self; reflexivity.
  - cbn [app contains]. rewrite IH. apply orb_true_r.
Qed.

Lemma contains_split sub s :
  contains sub s = true -> exists a b, s = a ++ sub ++ b.
Proof.
  induction s as [|x s IH]; cbn [contains]; intros H.
  - rewrite orb_false_r in H. apply startswith_app in H as [r ->].
    now exists [], r.
  - apply orb_prop in H as [H | H].
    + apply startswith_app in H as [r ->]. now exists [], r.
    + destruct (IH H) as (a & b & ->). now exists (x :: a), b.
Qed.

Lemma index_from_end_3 {A} (l : list A) (x y z : A) :
  index_from_end 3 (l ++ [x; y; z]) = Ok x.
Proof.
  unfold index_from_end. rewrite length_app. cbn [length].
  replace (length l + 3 <? 3)%nat with false
    by (symmetry; apply Nat.ltb_ge; lia).
  replace (length l + 3 - 3)%nat with (length l) by lia.
  rewrite nth_error_app2 by lia. now rewrite Nat.sub_diag.
Qed.

(** A text with ["/comments/"] in it has at least three pieces between
    slashes. *)
Lemma comments_three_pieces u :
  contains (py "/comments/") u = true ->
  exists x, index_from_end 3 (split_on (py "/") u) = Ok x.
Proof.
  intros H. apply contains_split in H as (a & b & ->).
  change (a ++ py "/comments/" ++ b)
    with (a ++ slash :: (py "comments" ++ slash :: b)).
  change (py "/") with [slash]. rewrite !split_on_char.
  rewrite (split_on_char_free slash (py "comments")) by reflexivity.
  pose proof (split_from_not_nil [slash] a 0) as Ha.
  pose proof (split_from_not_nil [slash] b 0) as Hb.
  unfold index_from_end. rewrite !length_app. cbn [length].
  fold (split_on [slash] a) in Ha. fold (split_on [slash] b) in Hb.
  destruct (split_on [slash] a) as [|pa la]; [contradiction|].
  destruct (split_on [slash] b) as [|pb lb]; [contradiction|].
  cbn [length].
  replace (S (length la) + (1 + S (length lb)) <? 3)%nat with false
    by (symmetry; apply Nat.ltb_ge; lia).
  destruct (nth_error _ _) as [x|] eqn:Hx; [eauto|].
  apply nth_error_None in Hx. rewrite !length_app in Hx.
  cbn [length] in Hx. lia.
Qed.

(** X: [reddit_post_to_chunk] never raises: the index [-3] is only taken
    when the URL contains ["/comments/"], which gives three pieces.  The
    id starts with ["reddit_"], the source is the URL and the document type
    is ["community_reddit"]. *)
Theorem reddit_post_to_chunk_returns (post : reddit_post) :
  exists c post_id,
    reddit_post_to_chunk post = Ok c
    /\ Ingest.id c = py "reddit_" ++ post_id
    /\ Ingest.metadata c !! "source" = Some (default [] (url post))
    /\ Ingest.metadata c !! "doc_type" = Some (py "community_reddit")
    /\ Ingest.text c <> [].
Proof.
  unfold reddit_post_to_chunk.
  destruct (contains (py "/comments/") (default [] (url post))) eqn:Hc.
  - destruct (comments_three_pieces _ Hc) as [x ->].
    eexists _, x. cbn [mbind result_bind Ingest.id Ingest.metadata Ingest.text].
    repeat split; try (by simplify_map_eq); try discriminate.
  - eexists _, _. cbn [mbind result_bind Ingest.id Ingest.metadata Ingest.text].
    repeat split; try (by simplify_map_eq); try discriminate.
Qed.

(** X: for a permalink [base/comments/<id>/<slug>/] the id of the chunk is
    ["reddit_<id>"]; without the final slash the piece taken is the word
    ["comments"], so every such post gets the id ["reddit_comments"]. *)
Theorem reddit_permalink_id (post : reddit_post) (base pid slug : str) :
  forallb (fun x => negb (Ascii.eqb slash x)) pid = true ->
  forallb (fun x => negb (Ascii.eqb slash x)) slug = true ->
  (url post = Some (base ++ py "/comments/" ++ pid ++ py "/" ++ slug ++ py "/")
   -> exists c, reddit_post_to_chunk post = Ok c
        /\ Ingest.id c = py "reddit_" ++ pid)
  /\ (url post = Some (base ++ py "/comments/" ++ pid ++ py "/" ++ slug)
      -> exists c, reddit_post_to_chunk post = Ok c
           /\ Ingest.id c = py "reddit_comments").
Proof.
  intros Hpid Hslug. unfold reddit_post_to_chunk. split; intros ->;
    cbn [default from_option Datatypes.id]; rewrite contains_app.
  - change (base ++ py "/comments/" ++ pid ++ py "/" ++ slug ++ py "/")
      with (base ++ slash :: (py "comments" ++ slash
                              :: (pid ++ slash :: (slug ++ slash :: [])))).
    change (py "/") with [slash]. rewrite !split_on_char.
    rewrite (split_on_char_free slash (py "comments")) by reflexivity.
    rewrite (split_on_char_free slash pid) by exact Hpid.
    rewrite (split_on_char_free slash slug) by exact Hslug.
    change (split_on [slash] [] ) with [@nil ascii].
    replace (split_on [slash] base ++ [py "comments"] ++ [pid] ++ [slug] ++ [[]])
      with ((split_on [slash] base ++ [py "comments"]) ++ [pid; slug; []])
      by (now rewrite <- app_assoc).
    rewrite index_from_end_3. eexists. split; reflexivity.
  - change (base ++ py "/comments/" ++ pid ++ py "/" ++ slug)
      with (base ++ slash :: (py "comments" ++ slash
                              :: (pid ++ slash :: slug))).
    change (py "/") with [slash]. rewrite !split_on_char.
    rewrite (split_on_char_free slash (py "comments")) by reflexivity.
    rewrite (split_on_char_free slash pid) by exact Hpid.
    rewrite (split_on_char_free slash slug) by exact Hslug.
    change ([py "comments"] ++ [pid] ++ [slug])
      with [py "comments"; pid; slug].
    rewrite index_from_end_3. eexists. split; reflexivity.
Qed.

Lemma reddit_permalink_id_witness :
  exists c, reddit_post_to_chunk sample_post = Ok c
    /\ Ingest.id c = py "reddit_1abcde".
Proof.
  apply (proj1 (reddit_permalink_id sample_post
                  (py "https://reddit.com/r/LangChain")
                  (py "1abcde") (py "chunking_tips") eq_refl eq_refl)).
  reflexivity.
Defined.

End CommunityFacts.

(** ** The interactive loop *)

Module RagFacts.

Import Rag.

Section MainFacts.

Variable ask : str -> list str * ending.
Variable describe : exn -> str.

Local Abbreviation loop := (main_loop ask describe).

Lemma quit_word_not_blank (question : str) :
  bool_decide (lower question ∈ quit_words) = true -> truthy question = true.
Proof.
  destruct question; [|reflexivity].
  intros H. vm_compute in H. discriminate.
Qed.

Lemma blank_line_not_stop s :
  truthy (strip s) = false -> stops (Line s) = false.
Proof.
  intros Ht. cbn [stops].
  destruct (bool_decide (lower (strip s) ∈ quit_words)) eqn:Hq;
    [|reflexivity].
  apply quit_word_not_blank in Hq. congruence.
Qed.

Lemma ends_loop_line s :
  ends_loop ask (Line s)
  = stops (Line s) || (truthy (strip s) && leaves_main (ask (strip s)).2).
Proof.
  unfold ends_loop. cbn [question_of].
  destruct (truthy (strip s)); reflexivity.
Qed.

(** One turn of the loop on a line, by cases. *)
Lemma main_loop_line s rest :
  (truthy (strip s) = false
   /\ loop (Line s :: rest) = continue_with [ask_prompt] [] (loop rest))
  \/ (truthy (strip s) = true /\ stops (Line s) = true
      /\ loop (Line s :: rest)
         = Run [ask_prompt; [nl] ++ py "Goodbye!"] [] true None)
  \/ (truthy (strip s) = true /\ stops (Line s) = false
      /\ leaves_main (ask (strip s)).2 = false
      /\ exists out,
           loop (Line s :: rest) = continue_with out [strip s] (loop rest))
  \/ (truthy (strip s) = true /\ stops (Line s) = false
      /\ leaves_main (ask (strip s)).2 = true
      /\ exists out exception,
           loop (Line s :: rest) = Run out [strip s] true exception).
Proof.
  cbn [main_loop stops]. destruct (truthy (strip s)) eqn:Ht; cbn [negb].
  - right. destruct (bool_decide (lower (strip s) ∈ quit_words)) eqn:Hq.
    + left. auto.
    + right.
      destruct (ask (strip s)) as [lines [answer|e| |exception]];
        cbn [snd leaves_main].
      * left. do 3 (split; [reflexivity|]). eexists. reflexivity.
      * left. do 3 (split; [reflexivity|]). eexists. reflexivity.
      * right. do 3 (split; [reflexivity|]). do 2 eexists. reflexivity.
      * right. do 3 (split; [reflexivity|]). do 2 eexists. reflexivity.
  - left. auto.
Qed.

Lemma main_loop_finished inputs :
  finished (loop inputs) = existsb (ends_loop ask) inputs.
Proof.
  induction inputs as [|ev rest IH]; [reflexivity|].
  destruct ev as [s| |]; cbn [existsb].
  - rewrite ends_loop_line.
    destruct (main_loop_line s rest)
      as [[Ht ->] | [(Ht & Hs & ->)
                    | [(Ht & Hs & Hl & out & ->)
                      | (Ht & Hs & Hl & out & exception & ->)]]].
    + rewrite (blank_line_not_stop s Ht), Ht. exact IH.
    + now rewrite Hs.
    + rewrite Hs, Ht, Hl. exact IH.
    + rewrite Hs, Ht, Hl. reflexivity.
  - reflexivity.
  - exact IH.
Qed.

Lemma main_loop_cut pre ev post :
  finished (loop pre) = false -> stops ev = true ->
  loop (pre ++ ev :: post) = loop (pre ++ [ev]).
Proof.
  intros Hpre Hev. induction pre as [|e pre IH]; cbn [app].
  - destruct ev as [s| |]; [|reflexivity|discriminate].
    pose proof (blank_line_not_stop s) as Hblank.
    destruct (main_loop_line s post)
      as [[Ht E1] | [(Ht & Hs & E1)
                    | [(Ht & Hs & Hl & out & E1)
                      | (Ht & Hs & Hl & out & exception & E1)]]];
      destruct (main_loop_line s [])
        as [[Ht' E2] | [(Ht' & Hs' & E2)
                       | [(Ht' & Hs' & Hl' & out' & E2)
                         | (Ht' & Hs' & Hl' & out' & exception' & E2)]]];
      try congruence.
    specialize (Hblank Ht). congruence.
  - destruct e as [s| |].
    + destruct (main_loop_line s pre)
        as [[Ht E] | [(Ht & Hs & E)
                     | [(Ht & Hs & Hl & out & E)
                       | (Ht & Hs & Hl & out & exception & E)]]].
      * rewrite E in Hpre. cbn [finished continue_with] in Hpre.
        cbn [main_loop]. rewrite Ht. cbn [negb]. now rewrite IH.
      * rewrite E in Hpre. discriminate.
      * rewrite E in Hpre. cbn [finished continue_with] in Hpre.
        cbn [stops] in Hs. cbn [main_loop]. rewrite Ht, Hs. cbn [negb].
        destruct (ask (strip s)) as [lines [answer|e| |exception]];
          try reflexivity; now rewrite IH.
      * rewrite E in Hpre. discriminate.
    + discriminate.
    + cbn [main_loop] in *. cbn [finished continue_with] in Hpre.
      now rewrite IH.
Qed.

Lemma main_loop_asked_stop pre ev :
  finished (loop pre) = false -> stops ev = true ->
  asked (loop (pre ++ [ev])) = asked (loop pre).
Proof.
  intros Hpre Hev. induction pre as [|e pre IH]; cbn [app].
  - destruct ev as [s| |]; [|reflexivity|discriminate].
    pose proof (blank_line_not_stop s) as Hblank.
    destruct (main_loop_line s [])
      as [[Ht ->] | [(Ht & Hs & ->)
                    | [(Ht & Hs & Hl & out & ->)
                      | (Ht & Hs & Hl & out & exception & ->)]]];
      try reflexivity; congruence.
  - destruct e as [s| |].
    + destruct (main_loop_line s pre)
        as [[Ht E] | [(Ht & Hs & E)
                     | [(Ht & Hs & Hl & out & E)
                       | (Ht & Hs & Hl & out & exception & E)]]].
      * rewrite E in Hpre. cbn [finished continue_with] in Hpre.
        cbn [main_loop]. rewrite Ht. cbn [negb asked continue_with].
        now rewrite IH.
      * rewrite E in Hpre. discriminate.
      * rewrite E in Hpre. cbn [finished continue_with] in Hpre.
        cbn [stops] in Hs. cbn [main_loop]. rewrite Ht, Hs. cbn [negb].
        destruct (ask (strip s)) as [lines [answer|e| |exception]];
          cbn [asked continue_with]; try reflexivity; now rewrite IH.
      * rewrite E in Hpre. discriminate.
    + discriminate.
    + cbn [main_loop] in *. cbn [finished continue_with] in Hpre.
      cbn [asked continue_with]. now rewrite IH.
Qed.

(** X: the loop of [main] is left exactly when an input has arrived that
    ends it: an interrupt at the prompt, a line reading [quit], [exit] or
    [q] (any case, spaces around it apart), or a question during which
    [ask] is interrupted or raises what is no [Exception].  Nothing else
    ends it: not a blank line, not an [Exception] of [ask], and not the end
    of the input, after which every turn reports the error again. *)
Theorem main_left_iff_stop inputs :
  (finished (main ask describe inputs) = true
   <-> exists ev, ev ∈ inputs /\ ends_loop ask ev = true)
  /\ (forall n, finished (main ask describe (inputs ++ repeat Eof n))
                = finished (main ask describe inputs))
  /\ ((forall question, leaves_main (ask question).2 = false) ->
      finished (main ask describe inputs) = existsb stops inputs).
Proof.
  unfold main. cbn [finished continue_with]. split; [|split].
  - rewrite main_loop_finished, existsb_exists.
    split; intros (ev & H1 & H2); exists ev; split; auto;
      now apply list_elem_of_In.
  - intros n. rewrite !main_loop_finished, existsb_app.
    replace (existsb (ends_loop ask) (repeat Eof n)) with false;
      [apply orb_false_r|].
    induction n; [reflexivity|exact IHn].
  - intros Hask. rewrite main_loop_finished.
    induction inputs as [|ev rest IH]; [reflexivity|].
    cbn [existsb]. rewrite IH. f_equal.
    unfold ends_loop. destruct (question_of ev) as [question|].
    + rewrite Hask. apply orb_false_r.
    + apply orb_false_r.
Qed.

(** X: once a stopping input has arrived nothing after it is read: the
    run is the same whatever follows, it has ended, and the stopping line
    itself is not asked. *)
Theorem main_reads_nothing_after_stop pre ev post :
  finished (main ask describe pre) = false -> stops ev = true ->
  main ask describe (pre ++ ev :: post) = main ask describe (pre ++ [ev])
  /\ finished (main ask describe (pre ++ [ev])) = true
  /\ asked (main ask describe (pre ++ [ev])) = asked (main ask describe pre).
Proof.
  unfold main. cbn [finished asked continue_with app].
  intros Hpre Hev. split; [|split].
  - now rewrite main_loop_cut.
  - rewrite main_loop_finished, existsb_app. cbn [existsb].
    unfold ends_loop at 2. rewrite Hev. cbn [orb]. now rewrite orb_true_r.
  - now apply main_loop_asked_stop.
Qed.

(** X: as long as no input arrives that ends the loop, [ask] is called
    once for each line that is not blank, in order, with the line without
    the spaces around it; this holds whatever [ask] prints or answers and
    whatever [Exception] it raises. *)
Theorem main_asks_each_question inputs :
  Forall (fun ev => ends_loop ask ev = false) inputs ->
  asked (main ask describe inputs) = omap question_of inputs
  /\ finished (main ask describe inputs) = false.
Proof.
  unfold main. cbn [finished asked continue_with app].
  induction 1 as [|ev rest Hev _ [IHa IHf]]; [split; reflexivity|].
  destruct ev as [s| |].
  - rewrite ends_loop_line in Hev.
    apply orb_false_elim in Hev as [Hst Hlv].
    destruct (main_loop_line s rest)
      as [[Ht ->] | [(Ht & Hs & ->)
                    | [(Ht & Hs & Hl & out & ->)
                      | (Ht & Hs & Hl & out & exception & ->)]]];
      cbn [finished asked continue_with app]; try congruence.
    + split; [|exact IHf]. rewrite IHa.
      cbn [omap list_omap question_of]. rewrite Ht. reflexivity.
    + split; [|exact IHf]. rewrite IHa.
      cbn [omap list_omap question_of]. rewrite Ht. reflexivity.
    + rewrite Ht, Hl in Hlv. discriminate.
  - unfold ends_loop in Hev. cbn in Hev. discriminate.
  - cbn [main_loop finished asked continue_with app].
    split; [|exact IHf]. rewrite IHa. reflexivity.
Qed.

End MainFacts.

Lemma main_left_iff_stop_witness :
  finished (main Scenario.echo_ask Scenario.message_of
              [Line (py "hello"); Eof; Line (py "Exit")])
  = existsb stops [Line (py "hello"); Eof; Line (py "Exit")].
Proof.
  apply (proj2 (proj2 (main_left_iff_stop Scenario.echo_ask
                         Scenario.message_of
                         [Line (py "hello"); Eof; Line (py "Exit")]))).
  intros question. reflexivity.
Defined.

Lemma main_reads_nothing_after_stop_witness :
  main Scenario.echo_ask Scenario.message_of
    ([Line (py "what is a chunk?")] ++ Line (py "  QUIT ") :: [Line (py "more")])
  = main Scenario.echo_ask Scenario.message_of
      ([Line (py "what is a chunk?")] ++ [Line (py "  QUIT ")]).
Proof.
  apply (main_reads_nothing_after_stop Scenario.echo_ask Scenario.message_of
           [Line (py "what is a chunk?")] (Line (py "  QUIT "))
           [Line (py "more")]); reflexivity.
Defined.

Lemma main_asks_each_question_witness :
  asked (main Scenario.failing_ask Scenario.message_of
           [Line (py " first "); Eof; Line (py "   "); Line (py "second")])
  = [py "first"; py "second"].
Proof.
  apply (main_asks_each_question Scenario.failing_ask Scenario.message_of
           [Line (py " first "); Eof; Line (py "   "); Line (py "second")]).
  repeat constructor.
Defined.

(** An interrupt during [ask] ends the loop: the question after it is not
    read. *)
Example main_interrupted_in_ask :
  main Scenario.interrupted_ask Scenario.message_of
    [Line (py "fast"); Line (py "slow"); Line (py "late")]
  = main Scenario.interrupted_ask Scenario.message_of
      [Line (py "fast"); Line (py "slow")]
  /\ asked (main Scenario.interrupted_ask Scenario.message_of
              [Line (py "fast"); Line (py "slow"); Line (py "late")])
     = [py "fast"; py "slow"]
  /\ finished (main Scenario.interrupted_ask Scenario.message_of
                 [Line (py "fast"); Line (py "slow"); Line (py "late")])
     = true.
Proof. vm_compute. repeat split. Qed.

End RagFacts.
